(** * Middleware of the Tradera client: rate limiter, retryer, cache, dispatch

    A shallow embedding of the Go sources
      - [errors.go]               (error values and [IsRetryable]),
      - [middleware/ratelimit.go] (token bucket),
      - [middleware/retry.go]     (retry with exponential backoff),
      - the cache of package [middleware] (TTL cache),
      - [tradera.go], [public_client.go] (composition of the three).

    Conventions.
      - [time.Time] and [time.Duration] are integers ([Z]) counting
        nanoseconds; the clock is read from an explicit world state.
      - [float64] quantities (tokens, rate, multiplier, jitter) are exact
        rationals ([Q]); rounding, infinities and NaN are outside the model.
        The conversion [time.Duration(f)] truncates towards zero.
      - The code runs one goroutine at a time: mutexes are not modelled.
      - [rand.Float64()] and the choice Go's [select] makes between two
        ready channels are inputs of the model (an [Oracle]). *)

From Stdlib Require Import ZArith QArith Qround Qpower Qminmax Lqa Lia List Bool.
From stdpp Require Import gmap strings list fin_maps.
Import ListNotations.

Set Warnings "-register-all".
Open Scope Z_scope.

(* ===================================================================== *)
(** ** Numbers *)
(* ===================================================================== *)

(** Nanoseconds. *)
Abbreviation Duration := Z (only parsing).
Abbreviation Time := Z (only parsing).

Definition Millisecond : Z := 1000000.
Definition Second : Z := 1000000000.

(** Strict comparison of rationals, as a boolean. *)
Definition Qlt_bool (x y : Q) : bool := negb (Qle_bool y x).

(** Go's conversion of a float to an integer type: the fraction is dropped. *)
Definition Qtrunc (q : Q) : Z :=
  if Qle_bool 0 q then Qfloor q else Qceiling q.

(** [d.Seconds()]. *)
Definition Seconds (d : Z) : Q := inject_Z d / inject_Z Second.

(* ===================================================================== *)
(** ** errors.go *)
(* ===================================================================== *)

Module Errors.

(** Go [error] values.  The six package sentinels are distinct pointers made
    by [errors.New]; [Other] stands for any error value of a type this
    package does not know; [Wrapped] is an error with an [Unwrap() error]
    method (such as the result of [fmt.Errorf] with [%w]); [Joined] has
    [Unwrap() []error].  The two context errors are the values of
    [ctx.Err()].  The nil error is [None : option error]. *)
Inductive error : Type :=
  | ErrInvalidAppID
  | ErrInvalidAppKey
  | ErrAuthRequired
  | ErrRateLimited
  | ErrTimeout
  | ErrNotFound
  | APIError (Code Message Details : string)
  | SOAPFault (FaultCode FaultString Detail : string)
  | NetworkError (Op : string) (Err : option error)
  | Wrapped (msg : string) (inner : error)
  | Joined (errs : list error)
  | ContextCanceled
  | ContextDeadlineExceeded
  | Other (msg : string).

(** [errors.As] and [errors.Is] walk the tree of an error: the error
    itself, then what its [Unwrap] method gives ([NetworkError] unwraps to
    its [Err], when there is one).  [walk p e] is true when some error of
    the tree of [e] satisfies [p]. *)
Fixpoint walk (p : error -> bool) (e : error) : bool :=
  p e ||
  match e with
  | NetworkError _ (Some inner) => walk p inner
  | Wrapped _ inner => walk p inner
  | Joined errs => existsb (walk p) errs
  | _ => false
  end.

Definition is_NetworkError (e : error) : bool :=
  match e with NetworkError _ _ => true | _ => false end.

Definition is_SOAPFault (e : error) : bool :=
  match e with SOAPFault _ _ _ => true | _ => false end.

Definition is_APIError (e : error) : bool :=
  match e with APIError _ _ _ => true | _ => false end.

(** [errors.As(err, &netErr)] with [netErr] a pointer to [NetworkError]. *)
Definition As_NetworkError (e : error) : bool := walk is_NetworkError e.

(** [errors.As(err, &soapFault)]. *)
Definition As_SOAPFault (e : error) : bool := walk is_SOAPFault e.

(** [errors.As(err, &apiErr)]. *)
Definition As_APIError (e : error) : bool := walk is_APIError e.

(** [err == target] for a sentinel target: pointer identity. *)
Definition same_sentinel (e target : error) : bool :=
  match e, target with
  | ErrInvalidAppID, ErrInvalidAppID
  | ErrInvalidAppKey, ErrInvalidAppKey
  | ErrAuthRequired, ErrAuthRequired
  | ErrRateLimited, ErrRateLimited
  | ErrTimeout, ErrTimeout
  | ErrNotFound, ErrNotFound
  | ContextCanceled, ContextCanceled
  | ContextDeadlineExceeded, ContextDeadlineExceeded => true
  | _, _ => false
  end.

(** The [Is] method, which only [APIError] has: true for a target that is
    an [APIError] with the same code. *)
Definition Is_method (e target : error) : bool :=
  match e, target with
  | APIError code _ _, APIError code' _ _ => String.eqb code code'
  | _, _ => false
  end.

(** [errors.Is(err, target)]: some error of the tree is the target, or
    says so by its [Is] method. *)
Definition Is (e target : error) : bool :=
  walk (fun x => same_sentinel x target || Is_method x target) e.

(** [IsRetryable]. *)
Definition IsRetryable (err : option error) : bool :=
  match err with
  | None => false
  | Some e =>
      if As_NetworkError e then true
      else if Is e ErrRateLimited then true
      else if Is e ErrTimeout then true
      else if As_SOAPFault e then false
      else if As_APIError e then false
      else false
  end.

End Errors.

Export Errors.

(* ===================================================================== *)
(** ** Contexts, the world, and Go's [select] on a context and a timer *)
(* ===================================================================== *)

Module Runtime.

(** A [context.Context]: [done_at] is the instant its [Done] channel is
    closed ([None]: never, as for [context.Background()]); [done_err] is
    what [Err()] returns from then on. *)
Record Context : Type := mkContext {
  done_at : option Time;
  done_err : error
}.

Definition Background : Context :=
  {| done_at := None; done_err := ContextCanceled |}.

Definition ctx_Done (ctx : Context) (now : Time) : bool :=
  match done_at ctx with
  | Some t => t <=? now
  | None => false
  end.

Definition ctx_Err (ctx : Context) (now : Time) : option error :=
  if ctx_Done ctx now then Some (done_err ctx) else None.

(** What the model records of a run (ghost state, not visible to the
    operation). *)
Inductive Event : Type :=
  | EvAcquire (granted : bool)   (* one call of [TryAcquire] *)
  | EvLimiterWait (d : Duration) (* [Wait] reached its [select] *)
  | EvCall (err : option error)  (* one call of the wrapped operation *)
  | EvBackoff (d : Duration).    (* the retryer reached its [select] *)

Definition is_limiter_event (e : Event) : bool :=
  match e with EvAcquire _ | EvLimiterWait _ => true | _ => false end.

Definition is_retry_event (e : Event) : bool :=
  match e with EvCall _ | EvBackoff _ => true | _ => false end.

Definition is_call (e : Event) : bool :=
  match e with EvCall _ => true | _ => false end.

(** Number of calls of the wrapped operation in a trace. *)
Fixpoint calls (tr : list Event) : nat :=
  match tr with
  | [] => O
  | e :: tr' => if is_call e then S (calls tr') else calls tr'
  end.

(** What the most recent call of the wrapped operation returned. *)
Fixpoint last_call (tr : list Event) : option (option error) :=
  match tr with
  | [] => None
  | e :: tr' =>
      match last_call tr' with
      | Some res => Some res
      | None => match e with EvCall res => Some res | _ => None end
      end
  end.

(** The inputs the code does not control. *)
Record Oracle : Type := mkOracle {
  rnd : Z -> Q;            (* [rand.Float64()] drawn at a retry attempt *)
  pick_retry : Z -> bool;  (* [select] tie in the retryer, per attempt *)
  pick_limit : nat -> bool (* [select] tie in [Wait], per iteration *)
}.

Inductive Selected : Type := CtxDone | TimerFired.

Section World.

Context {Env : Type}.

(** The clock and whatever the wrapped operation can read and change. *)
Record World : Type := mkWorld {
  clock : Time;
  env : Env
}.

Record Exec : Type := mkExec {
  world : World;
  trace : list Event
}.

Definition set_clock (t : Time) (x : Exec) : Exec :=
  {| world := {| clock := t; env := env (world x) |}; trace := trace x |}.

Definition log (e : Event) (x : Exec) : Exec :=
  {| world := world x; trace := trace x ++ [e] |}.

(** [select { case <-ctx.Done(): ... case <-time.After(d): ... }].
    A case that is ready when the statement is entered is taken at once;
    when both are ready Go picks one at random ([pick = true]: the context).
    Otherwise the goroutine sleeps until the earlier of the two instants. *)
Definition select_done_or_after (ctx : Context) (pick : bool) (d : Duration)
    (x : Exec) : Selected * Exec :=
  let now := clock (world x) in
  let tie := if pick then CtxDone else TimerFired in
  if ctx_Done ctx now then
    if d <=? 0 then (tie, x) else (CtxDone, x)
  else if d <=? 0 then (TimerFired, x)
  else
    let fire := now + d in
    match done_at ctx with
    | None => (TimerFired, set_clock fire x)
    | Some t =>
        if t <? fire then (CtxDone, set_clock t x)
        else if fire <? t then (TimerFired, set_clock fire x)
        else (tie, set_clock fire x)
    end.

End World.

Arguments World : clear implicits.
Arguments Exec : clear implicits.

End Runtime.

Export Runtime.

(* ===================================================================== *)
(** ** middleware/retry.go *)
(* ===================================================================== *)

Module Retry.

Record RetryConfig : Type := mkRetryConfig {
  MaxRetries : Z;
  BaseDelay : Duration;
  MaxDelay : Duration;
  Multiplier : Q;
  Jitter : Q;
  (** [None] is the nil function. *)
  ShouldRetry : option (error -> bool)
}.

Definition DefaultRetryConfig : RetryConfig :=
  {| MaxRetries := 3;
     BaseDelay := Second;
     MaxDelay := 30 * Second;
     Multiplier := 2;
     Jitter := 2 # 10;
     ShouldRetry := Some (fun _ => true) |}.

Record Retryer : Type := mkRetryer { config : RetryConfig }.

Definition NewRetryer (c : RetryConfig) : Retryer :=
  let c := if MaxRetries c <=? 0
           then mkRetryConfig 3 (BaseDelay c) (MaxDelay c) (Multiplier c) (Jitter c) (ShouldRetry c)
           else c in
  let c := if BaseDelay c <=? 0
           then mkRetryConfig (MaxRetries c) Second (MaxDelay c) (Multiplier c) (Jitter c) (ShouldRetry c)
           else c in
  let c := if MaxDelay c <=? 0
           then mkRetryConfig (MaxRetries c) (BaseDelay c) (30 * Second) (Multiplier c) (Jitter c) (ShouldRetry c)
           else c in
  let c := if Qle_bool (Multiplier c) 0
           then mkRetryConfig (MaxRetries c) (BaseDelay c) (MaxDelay c) 2 (Jitter c) (ShouldRetry c)
           else c in
  let c := if Qlt_bool (Jitter c) 0
           then mkRetryConfig (MaxRetries c) (BaseDelay c) (MaxDelay c) (Multiplier c) 0 (ShouldRetry c)
           else c in
  let c := if Qlt_bool 1 (Jitter c)
           then mkRetryConfig (MaxRetries c) (BaseDelay c) (MaxDelay c) (Multiplier c) 1 (ShouldRetry c)
           else c in
  mkRetryer c.

(** [calculateDelay]; [u] is the value [rand.Float64()] returns, drawn only
    when the jitter is positive. *)
Definition calculateDelay (r : Retryer) (attempt : Z) (u : Q) : Duration :=
  let c := config r in
  let delay := (inject_Z (BaseDelay c) * Qpower (Multiplier c) attempt)%Q in
  let delay :=
    if Qlt_bool 0 (Jitter c) then
      let jitterRange := (delay * Jitter c)%Q in
      (delay - jitterRange + (u * 2 * jitterRange))%Q
    else delay in
  let delay :=
    if Qlt_bool (inject_Z (MaxDelay c)) delay then inject_Z (MaxDelay c)
    else delay in
  Qtrunc delay.


(** *** The retry loops *)

Section Loops.

Context {Env : Type}.

(** [func() error]. *)
Definition Op : Type := World Env -> option error * World Env.

(** [func() (T, error)]. *)
Definition OpWithResult (T : Type) : Type := World Env -> (T * option error) * World Env.

Definition invoke (fn : Op) (x : Exec Env) : option error * Exec Env :=
  let (err, w) := fn (world x) in
  (err, {| world := w; trace := trace x ++ [EvCall err] |}).

Definition invokeWithResult {T : Type} (fn : OpWithResult T) (x : Exec Env)
    : (T * option error) * Exec Env :=
  let (res, w) := fn (world x) in
  (res, {| world := w; trace := trace x ++ [EvCall (snd res)] |}).

(** [r.config.ShouldRetry != nil && !r.config.ShouldRetry(err)]. *)
Definition gives_up (r : Retryer) (err : error) : bool :=
  match ShouldRetry (config r) with
  | Some p => negb (p err)
  | None => false
  end.

Variable o : Oracle.

(** The [for] loop of [Do]; [lastErr] is the variable of that name.  The
    loop is entered with fuel [MaxRetries + 1]; [None] is a loop that ran
    out of fuel (shown not to happen in [Do_returns]). *)
Fixpoint Do_loop (r : Retryer) (ctx : Context) (fn : Op)
    (fuel : nat) (attempt : Z) (lastErr : option error) (x : Exec Env)
    : option (option error * Exec Env) :=
  if MaxRetries (config r) <? attempt then Some (lastErr, x)
  else
    match fuel with
    | O => None
    | S fuel' =>
        match invoke fn x with
        | (None, x1) => Some (None, x1)
        | (Some err, x1) =>
            let lastErr := Some err in
            if gives_up r err then Some (Some err, x1)
            else if attempt =? MaxRetries (config r) then Some (lastErr, x1)
            else
              let delay := calculateDelay r attempt (rnd o attempt) in
              match select_done_or_after ctx (pick_retry o attempt) delay
                      (log (EvBackoff delay) x1) with
              | (CtxDone, x2) => Some (ctx_Err ctx (clock (world x2)), x2)
              | (TimerFired, x2) => Do_loop r ctx fn fuel' (attempt + 1) lastErr x2
              end
        end
    end.

Definition Do (r : Retryer) (ctx : Context) (fn : Op) (x : Exec Env)
    : option (option error * Exec Env) :=
  Do_loop r ctx fn (Z.to_nat (MaxRetries (config r) + 1)) 0 None x.

(** The loop of [DoWithResult]; [result] is the variable of that name,
    initially the zero value of [T]. *)
Fixpoint DoWithResult_loop {T : Type} (r : Retryer) (ctx : Context)
    (fn : OpWithResult T) (fuel : nat) (attempt : Z) (result : T)
    (lastErr : option error) (x : Exec Env)
    : option ((T * option error) * Exec Env) :=
  if MaxRetries (config r) <? attempt then Some ((result, lastErr), x)
  else
    match fuel with
    | O => None
    | S fuel' =>
        match invokeWithResult fn x with
        | ((result, None), x1) => Some ((result, None), x1)
        | ((result, Some err), x1) =>
            let lastErr := Some err in
            if gives_up r err then Some ((result, Some err), x1)
            else if attempt =? MaxRetries (config r) then Some ((result, lastErr), x1)
            else
              let delay := calculateDelay r attempt (rnd o attempt) in
              match select_done_or_after ctx (pick_retry o attempt) delay
                      (log (EvBackoff delay) x1) with
              | (CtxDone, x2) => Some ((result, ctx_Err ctx (clock (world x2))), x2)
              | (TimerFired, x2) =>
                  DoWithResult_loop r ctx fn fuel' (attempt + 1) result lastErr x2
              end
        end
    end.

Definition DoWithResult {T : Type} (zero : T) (r : Retryer) (ctx : Context)
    (fn : OpWithResult T) (x : Exec Env) : option ((T * option error) * Exec Env) :=
  DoWithResult_loop r ctx fn (Z.to_nat (MaxRetries (config r) + 1)) 0 zero None x.

End Loops.

End Retry.

(* ===================================================================== *)
(** ** middleware/ratelimit.go *)
(* ===================================================================== *)

Module Ratelimit.

Record RateLimiter : Type := mkRateLimiter {
  rate : Q;         (* tokens per second *)
  bucketSize : Q;   (* max tokens (burst capacity) *)
  tokens : Q;       (* current tokens *)
  lastUpdate : Time (* last token update time *)
}.

(** [now] is the value of [time.Now()] at the call. *)
Definition NewRateLimiterWithBurst (requestsPerSecond burstCapacity : Q)
    (now : Time) : RateLimiter :=
  {| rate := requestsPerSecond;
     bucketSize := burstCapacity;
     tokens := burstCapacity;
     lastUpdate := now |}.

Definition NewRateLimiter (requestsPerSecond : Q) (now : Time) : RateLimiter :=
  NewRateLimiterWithBurst requestsPerSecond requestsPerSecond now.

Definition refillTokens (r : RateLimiter) (now : Time) : RateLimiter :=
  let elapsed := Seconds (now - lastUpdate r) in
  let tokens := (tokens r + elapsed * rate r)%Q in
  let tokens := if Qlt_bool (bucketSize r) tokens then bucketSize r else tokens in
  {| rate := rate r; bucketSize := bucketSize r;
     tokens := tokens; lastUpdate := now |}.

Definition TryAcquire (r : RateLimiter) (now : Time) : bool * RateLimiter :=
  let r := refillTokens r now in
  if Qle_bool 1 (tokens r) then
    (true, {| rate := rate r; bucketSize := bucketSize r;
              tokens := (tokens r - 1)%Q; lastUpdate := lastUpdate r |})
  else (false, r).

(** The limiter assumes [rate > 0]; for a zero rate Go divides to an
    infinity, which the rationals do not have. *)
Definition timeUntilNextToken (r : RateLimiter) : Duration :=
  if Qle_bool 1 (tokens r) then 0
  else
    let tokensNeeded := (1 - tokens r)%Q in
    let secondsNeeded := (tokensNeeded / rate r)%Q in
    Qtrunc (secondsNeeded * inject_Z Second)%Q.

Definition Available (r : RateLimiter) (now : Time) : Q * RateLimiter :=
  let r := refillTokens r now in
  (tokens r, r).

Definition Rate (r : RateLimiter) : Q := rate r.

(** The invariant of the bucket. *)
Definition bucket_ok (r : RateLimiter) : Prop :=
  (0 <= tokens r)%Q /\ (tokens r <= bucketSize r)%Q.

(** A sequence of [TryAcquire] calls, made at the given readings of the
    clock: the number that succeeded and the limiter they leave. *)
Fixpoint TryAcquire_all (times : list Time) (r : RateLimiter) : nat * RateLimiter :=
  match times with
  | [] => (O, r)
  | t :: times' =>
      let (ok, r1) := TryAcquire r t in
      let (n, r2) := TryAcquire_all times' r1 in
      (if ok then S n else n, r2)
  end.

Section Wait.

Context {Env : Type}.
Variable o : Oracle.

(** The [for] loop of [Wait], [i] counting its iterations.  The loop has no
    bound in the source; [None] is a caller still waiting when the fuel is
    spent. *)
Fixpoint Wait_loop (ctx : Context) (fuel : nat) (i : nat) (r : RateLimiter)
    (x : Exec Env) : option (option error * RateLimiter * Exec Env) :=
  match fuel with
  | O => None
  | S fuel' =>
      let (ok, r1) := TryAcquire r (clock (world x)) in
      let x1 := log (EvAcquire ok) x in
      if ok then Some (None, r1, x1)
      else
        let waitTime := timeUntilNextToken r1 in
        match select_done_or_after ctx (pick_limit o i) waitTime
                (log (EvLimiterWait waitTime) x1) with
        | (CtxDone, x2) => Some (ctx_Err ctx (clock (world x2)), r1, x2)
        | (TimerFired, x2) => Wait_loop ctx fuel' (S i) r1 x2
        end
  end.

Definition Wait (ctx : Context) (fuel : nat) (r : RateLimiter) (x : Exec Env)
    : option (option error * RateLimiter * Exec Env) :=
  Wait_loop ctx fuel 0 r x.

End Wait.

End Ratelimit.

(* ===================================================================== *)
(** ** Values of type [interface{}] *)
(* ===================================================================== *)

Module Dyn.

(** [Category] of public_client.go. *)
Inductive Category : Type :=
  mkCategory (ID : Z) (Name : string) (Children : list Category).

(** The types a cached value is asked for; [TAny] is the interface type
    [any], the others are concrete. *)
Inductive GoType : Type := TBool | TInt | TString | TCategories | TAny.

(** Interface values: [VNil] is the nil interface, every other value
    carries its dynamic type. *)
Inductive any : Type :=
  | VNil
  | VBool (b : bool)
  | VInt (n : Z)
  | VString (s : string)
  | VCategories (cs : list Category).

Definition GoType_eqb (a b : GoType) : bool :=
  match a, b with
  | TBool, TBool | TInt, TInt | TString, TString
  | TCategories, TCategories | TAny, TAny => true
  | _, _ => false
  end.

Definition is_interface (T : GoType) : bool :=
  match T with TAny => true | _ => false end.

(** The dynamic type of an interface value; the nil interface has none. *)
Definition dynamic_type (v : any) : option GoType :=
  match v with
  | VNil => None
  | VBool _ => Some TBool
  | VInt _ => Some TInt
  | VString _ => Some TString
  | VCategories _ => Some TCategories
  end.

(** Every type implements the empty interface. *)
Definition implements (D T : GoType) : bool :=
  match T with TAny => true | _ => false end.

(** [var zero T], as an interface value. *)
Definition zero_value (T : GoType) : any :=
  match T with
  | TBool => VBool false
  | TInt => VInt 0
  | TString => VString ""
  | TCategories => VCategories []
  | TAny => VNil
  end.

(** [typed, ok := value.(T)]: for a concrete [T] the dynamic type of the
    value must be [T]; for an interface [T] it must implement [T]; the nil
    interface fails both. *)
Definition type_assert (v : any) (T : GoType) : any * bool :=
  match dynamic_type v with
  | None => (zero_value T, false)
  | Some D =>
      if (if is_interface T then implements D T else GoType_eqb D T)
      then (v, true) else (zero_value T, false)
  end.

End Dyn.

Export Dyn.

(* ===================================================================== *)
(** ** Package middleware: the cache *)
(* ===================================================================== *)

Module Cache.

Record CacheEntry : Type := mkCacheEntry {
  Value : any;
  Expiration : Time
}.

(** [time.Now().After(e.Expiration)]. *)
Definition IsExpired (e : CacheEntry) (now : Time) : bool := Expiration e <? now.

(** The background goroutine and its stop channel are not part of the
    state: [cleanup] below is the sweep it runs at every tick. *)
Record Cache : Type := mkCache {
  defaultTTL : Duration;
  entries : gmap string CacheEntry;
  cleanupInterval : Duration
}.

Definition NewCache (defaultTTL : Duration) : Cache :=
  {| defaultTTL := defaultTTL;
     entries := ∅;
     cleanupInterval := Z.quot defaultTTL 2 |}.

Definition with_entries (c : Cache) (m : gmap string CacheEntry) : Cache :=
  {| defaultTTL := defaultTTL c; entries := m; cleanupInterval := cleanupInterval c |}.

Definition Delete (c : Cache) (key : string) : Cache :=
  with_entries c (delete key (entries c)).

Definition Get (c : Cache) (key : string) (now : Time) : (any * bool) * Cache :=
  match entries c !! key with
  | None => ((VNil, false), c)
  | Some entry =>
      if IsExpired entry now then ((VNil, false), Delete c key)
      else ((Value entry, true), c)
  end.

Definition GetTyped (T : GoType) (c : Cache) (key : string) (now : Time)
    : (any * bool) * Cache :=
  let zero := zero_value T in
  match Get c key now with
  | ((_, false), c1) => ((zero, false), c1)
  | ((value, true), c1) =>
      match type_assert value T with
      | (_, false) => ((zero, false), c1)
      | (typed, true) => ((typed, true), c1)
      end
  end.

Definition SetWithTTL (c : Cache) (key : string) (value : any) (ttl : Duration)
    (now : Time) : Cache :=
  with_entries c
    (<[key := {| Value := value; Expiration := now + ttl |}]> (entries c)).

(** [Set]. *)
Definition Set_ (c : Cache) (key : string) (value : any) (now : Time) : Cache :=
  SetWithTTL c key value (defaultTTL c) now.

Definition Clear (c : Cache) : Cache := with_entries c ∅.

Definition Size (c : Cache) : nat := size (entries c).

(** The keys, in some order. *)
Definition Keys (c : Cache) : list string := (map_to_list (entries c)).*1.

Definition cleanup (c : Cache) (now : Time) : Cache :=
  with_entries c
    (filter (fun kv => negb (Expiration (snd kv) <? now) = true) (entries c)).

Section Compute.

Context {Env : Type}.

Definition GetOrSet (c : Cache) (key : string) (fn : Retry.OpWithResult any)
    (x : Exec Env) : (any * option error) * Cache * Exec Env :=
  match Get c key (clock (world x)) with
  | ((value, true), c1) => ((value, None), c1, x)
  | ((_, false), c1) =>
      match Retry.invokeWithResult fn x with
      | ((_, Some err), x1) => ((VNil, Some err), c1, x1)
      | ((value, None), x1) =>
          ((value, None), Set_ c1 key value (clock (world x1)), x1)
      end
  end.

Definition GetOrSetTyped (T : GoType) (c : Cache) (key : string)
    (fn : Retry.OpWithResult any) (x : Exec Env)
    : (any * option error) * Cache * Exec Env :=
  let zero := zero_value T in
  match GetTyped T c key (clock (world x)) with
  | ((value, true), c1) => ((value, None), c1, x)
  | ((_, false), c1) =>
      match Retry.invokeWithResult fn x with
      | ((_, Some err), x1) => ((zero, Some err), c1, x1)
      | ((value, None), x1) =>
          ((value, None), Set_ c1 key value (clock (world x1)), x1)
      end
  end.

End Compute.

End Cache.

(* ===================================================================== *)
(** ** tradera.go and public_client.go: the composition *)
(* ===================================================================== *)

Module Tradera.

Import Retry Ratelimit Cache.

Record Config : Type := mkConfig {
  AppID : Z;
  AppKey : string;
  UserID : Z;
  Token : string;
  RateLimit : Q;             (* 0 = disabled *)
  RetryEnabled : bool;
  MaxRetries : Z;
  RetryBaseDelay : Duration;
  CacheTTL : Duration;       (* 0 = disabled *)
  Timeout : Duration
}.

Definition DefaultConfig (appID : Z) (appKey : string) : Config :=
  {| AppID := appID; AppKey := appKey; UserID := 0; Token := "";
     RateLimit := 0; RetryEnabled := false; MaxRetries := 3;
     RetryBaseDelay := Second; CacheTTL := 0; Timeout := 30 * Second |}.

Definition Validate (c : Config) : option error :=
  if AppID c <=? 0 then Some ErrInvalidAppID
  else if String.eqb (AppKey c) "" then Some ErrInvalidAppKey
  else None.

(** The middleware of a [Client]; [None] is a nil pointer. *)
Record Client : Type := mkClient {
  config : Config;
  rateLimiter : option RateLimiter;
  retryer : option Retryer;
  cache : option Cache
}.

Definition NewClient (cfg : Config) (now : Time) : Client + error :=
  match Validate cfg with
  | Some err => inr err
  | None =>
      inl {| config := cfg;
             rateLimiter :=
               if Qlt_bool 0 (RateLimit cfg)
               then Some (NewRateLimiter (RateLimit cfg) now) else None;
             retryer :=
               if RetryEnabled cfg
               then Some (NewRetryer
                            {| Retry.MaxRetries := MaxRetries cfg;
                               BaseDelay := RetryBaseDelay cfg;
                               MaxDelay := 30 * Second;
                               Multiplier := 2;
                               Jitter := 2 # 10;
                               ShouldRetry := Some (fun e => IsRetryable (Some e)) |})
               else None;
             cache :=
               if 0 <? CacheTTL cfg then Some (NewCache (CacheTTL cfg)) else None |}
  end.

Definition with_limiter (c : Client) (rl : RateLimiter) : Client :=
  {| config := config c; rateLimiter := Some rl;
     retryer := retryer c; cache := cache c |}.

Definition with_cache (c : Client) (ca : Cache) : Client :=
  {| config := config c; rateLimiter := rateLimiter c;
     retryer := retryer c; cache := Some ca |}.

(** A call that returned, or one that panicked. *)
Inductive Outcome (A : Type) : Type :=
  | Ret (a : A)
  | Panic.
Arguments Ret {A} a.
Arguments Panic {A}.

Section Dispatch.

Context {Env : Type}.
Variable o : Oracle.

(** The first step of both dispatchers: block on the limiter when there is
    one.  [fuel] bounds the iterations of [Wait]. *)
Definition applyRateLimit (c : Client) (ctx : Context) (fuel : nat)
    (x : Exec Env) : option (option error * Client * Exec Env) :=
  match rateLimiter c with
  | Some rl =>
      match Wait o ctx fuel rl x with
      | None => None
      | Some (err, rl1, x1) => Some (err, with_limiter c rl1, x1)
      end
  | None => Some (None, c, x)
  end.

Definition executeWithMiddleware (c : Client) (ctx : Context) (fn : Op)
    (fuel : nat) (x : Exec Env) : option (option error * Client * Exec Env) :=
  match applyRateLimit c ctx fuel x with
  | None => None
  | Some (Some err, c1, x1) => Some (Some err, c1, x1)
  | Some (None, c1, x1) =>
      match retryer c1 with
      | Some r =>
          match Do o r ctx fn x1 with
          | None => None
          | Some (err, x2) => Some (err, c1, x2)
          end
      | None => let (err, x2) := invoke fn x1 in Some (err, c1, x2)
      end
  end.

Definition executeWithMiddlewareResult {T : Type} (zero : T) (c : Client)
    (ctx : Context) (fn : OpWithResult T) (fuel : nat) (x : Exec Env)
    : option ((T * option error) * Client * Exec Env) :=
  match applyRateLimit c ctx fuel x with
  | None => None
  | Some (Some err, c1, x1) => Some ((zero, Some err), c1, x1)
  | Some (None, c1, x1) =>
      match retryer c1 with
      | Some r =>
          match DoWithResult o zero r ctx fn x1 with
          | None => None
          | Some (res, x2) => Some (res, c1, x2)
          end
      | None => let (res, x2) := invokeWithResult fn x1 in Some (res, c1, x2)
      end
  end.

(** The generated SOAP types are not part of the sources at hand: the
    response of the remote call is a type [Response], [nilResponse] its nil
    pointer, and [categoriesOf] stands for
    [convertCategories(result.GetCategoriesResult)]. *)
Context {Response : Type}.
Variable nilResponse : Response.
Variable categoriesOf : Response -> list Category.

(** The cache lookup that opens [GetCategories]: [inl] is the early return
    (or the panic of the unchecked assertion [cached.([]*Category)]), [inr]
    the client with which the call goes on. *)
Definition cachedCategories (c : Client) (now : Time)
    : Outcome (list Category) * Client + Client :=
  match cache c with
  | Some ca =>
      match Get ca "categories" now with
      | ((cached, true), ca1) =>
          match cached with
          | VCategories cs => inl (Ret cs, with_cache c ca1)
          | _ => inl (Panic, with_cache c ca1)
          end
      | ((_, false), ca1) => inr (with_cache c ca1)
      end
  | None => inr c
  end.

(** [remote] is the call [c.service.GetCategoriesContext(ctx, ...)]. *)
Definition GetCategories (c : Client) (ctx : Context)
    (remote : OpWithResult Response) (fuel : nat) (x : Exec Env)
    : option (Outcome (list Category * option error) * Client * Exec Env) :=
  match cachedCategories c (clock (world x)) with
  | inl (Ret cs, c1) => Some (Ret (cs, None), c1, x)
  | inl (Panic, c1) => Some (Panic, c1, x)
  | inr c1 =>
      match executeWithMiddlewareResult nilResponse c1 ctx remote fuel x with
      | None => None
      | Some ((_, Some err), c2, x2) => Some (Ret ([], Some err), c2, x2)
      | Some ((result, None), c2, x2) =>
          let categories := categoriesOf result in
          let c3 :=
            match cache c2 with
            | Some ca =>
                with_cache c2
                  (Set_ ca "categories" (VCategories categories) (clock (world x2)))
            | None => c2
            end in
          Some (Ret (categories, None), c3, x2)
      end
  end.


End Dispatch.

End Tradera.

(* ===================================================================== *)
(** ** config.go, auth.go and an authenticated endpoint *)
(* ===================================================================== *)

Module Options.

Import Tradera.

Definition WithUserAuth (c : Config) (userID : Z) (token : string) : Config :=
  {| AppID := AppID c; AppKey := AppKey c; UserID := userID; Token := token;
     RateLimit := RateLimit c; RetryEnabled := RetryEnabled c;
     MaxRetries := MaxRetries c; RetryBaseDelay := RetryBaseDelay c;
     CacheTTL := CacheTTL c; Timeout := Timeout c |}.

Definition WithRateLimit (c : Config) (requestsPerSecond : Q) : Config :=
  {| AppID := AppID c; AppKey := AppKey c; UserID := UserID c; Token := Token c;
     RateLimit := requestsPerSecond; RetryEnabled := RetryEnabled c;
     MaxRetries := MaxRetries c; RetryBaseDelay := RetryBaseDelay c;
     CacheTTL := CacheTTL c; Timeout := Timeout c |}.

Definition WithRetry (c : Config) (maxRetries : Z) (baseDelay : Duration) : Config :=
  {| AppID := AppID c; AppKey := AppKey c; UserID := UserID c; Token := Token c;
     RateLimit := RateLimit c; RetryEnabled := true;
     MaxRetries := maxRetries; RetryBaseDelay := baseDelay;
     CacheTTL := CacheTTL c; Timeout := Timeout c |}.

Definition WithCache (c : Config) (ttl : Duration) : Config :=
  {| AppID := AppID c; AppKey := AppKey c; UserID := UserID c; Token := Token c;
     RateLimit := RateLimit c; RetryEnabled := RetryEnabled c;
     MaxRetries := MaxRetries c; RetryBaseDelay := RetryBaseDelay c;
     CacheTTL := ttl; Timeout := Timeout c |}.

Definition WithTimeout (c : Config) (timeout : Duration) : Config :=
  {| AppID := AppID c; AppKey := AppKey c; UserID := UserID c; Token := Token c;
     RateLimit := RateLimit c; RetryEnabled := RetryEnabled c;
     MaxRetries := MaxRetries c; RetryBaseDelay := RetryBaseDelay c;
     CacheTTL := CacheTTL c; Timeout := timeout |}.

Definition HasUserAuth (c : Config) : bool :=
  (0 <? UserID c) && negb (String.eqb (Token c) "").

End Options.

Module Auth.

Record AuthenticationHeader : Type := mkAuthenticationHeader {
  AppID : Z;
  AppKey : string
}.

Record AuthorizationHeader : Type := mkAuthorizationHeader {
  UserID : Z;
  Token : string
}.

Record SOAPHeaders : Type := mkSOAPHeaders {
  Authentication : AuthenticationHeader;
  Authorization : option AuthorizationHeader (* nil if not using user auth *)
}.

Definition NewSOAPHeaders (cfg : Tradera.Config) : SOAPHeaders :=
  {| Authentication :=
       {| AppID := Tradera.AppID cfg; AppKey := Tradera.AppKey cfg |};
     Authorization :=
       if Options.HasUserAuth cfg
       then Some {| UserID := Tradera.UserID cfg; Token := Tradera.Token cfg |}
       else None |}.

Definition RequireUserAuth (cfg : Tradera.Config) : option error :=
  if negb (Options.HasUserAuth cfg) then Some ErrAuthRequired else None.

Section Endpoint.

Context {Env : Type}.
Variable o : Oracle.

(** [SetSellerOrderAsShipped] of order_client.go, and with it every endpoint
    of the same shape ([SetSellerOrderAsPaid], [EndItem], ...): the check of
    the user's credentials, then the dispatcher around the remote call
    [remote]. *)
Definition SetSellerOrderAsShipped (c : Tradera.Client) (ctx : Context)
    (remote : @Retry.Op Env) (fuel : nat) (x : Exec Env)
    : option (option error * Tradera.Client * Exec Env) :=
  match RequireUserAuth (Tradera.config c) with
  | Some err => Some (Some err, c, x)
  | None => Tradera.executeWithMiddleware o c ctx remote fuel x
  end.

End Endpoint.

End Auth.

(* ===================================================================== *)
(** ** Scenarios: scripted operations and sequences of clock readings *)
(* ===================================================================== *)

Module Scenario.

(** An operation that plays a script: each call returns, and consumes, the
    next result of the list it keeps in its environment; an exhausted
    script succeeds. *)
Definition scripted : @Retry.Op (list (option error)) :=
  fun w =>
    match env w with
    | [] => (None, w)
    | res :: rest => (res, {| clock := clock w; env := rest |})
    end.

(** Clock readings that do not run backwards, starting from [t0]. *)
Fixpoint nondecreasing_from (t0 : Time) (times : list Time) : Prop :=
  match times with
  | [] => True
  | t :: times' => t0 <= t /\ nondecreasing_from t times'
  end.

(** The last reading of a sequence that starts at [t0]. *)
Fixpoint last_reading (t0 : Time) (times : list Time) : Time :=
  match times with
  | [] => t0
  | t :: times' => last_reading t times'
  end.

(** The sleeps the retryer asked for, in order. *)
Definition backoffs (tr : list Event) : list Duration :=
  flat_map (fun e => match e with EvBackoff d => [d] | _ => [] end) tr.

(** A remote call with a result, seen as a call that only fails or not. *)
Definition forget_result {Env T : Type} (fn : @Retry.OpWithResult Env T)
    : @Retry.Op Env :=
  fun w => (snd (fst (fn w)), snd (fn w)).

End Scenario.

(* ===================================================================== *)
(** ** Concrete configurations, contexts and operations *)
(* ===================================================================== *)

Module Examples.

Import Retry Ratelimit Cache Tradera.



(** [BaseDelay = 100ms], [Multiplier = 2], [MaxDelay = 1s], [Jitter = 0]. *)
Definition growth_config (m : Z) (sr : option (error -> bool)) : RetryConfig :=
  {| Retry.MaxRetries := m; BaseDelay := 100 * Millisecond; MaxDelay := Second;
     Multiplier := 2; Jitter := 0; ShouldRetry := sr |}.

(** The retry policy [NewClient] builds for [WithRetry(3, time.Second)]. *)
Definition client_config : RetryConfig :=
  {| Retry.MaxRetries := 3; BaseDelay := Second; MaxDelay := 30 * Second;
     Multiplier := 2; Jitter := 2 # 10;
     ShouldRetry := Some (fun e => IsRetryable (Some e)) |}.

(** Draws of zero; ties go to the timer. *)
Definition oracle0 : Oracle :=
  {| rnd := fun _ => 0%Q; pick_retry := fun _ => false; pick_limit := fun _ => false |}.

(** A context cancelled at time 0. *)
Definition cancelled : Context :=
  {| done_at := Some 0; done_err := ContextCanceled |}.

(** The world at time 0, nothing run yet. *)
Definition start : Exec unit :=
  {| world := {| clock := 0; env := tt |}; trace := [] |}.

Definition succeeds : @Op unit := fun w => (None, w).
Definition times_out : @Op unit := fun w => (Some ErrTimeout, w).
Definition faults : @Op unit :=
  fun w => (Some (SOAPFault "Client" "bad request" ""), w).

(** [NewRateLimiter(5)] at time 0, and the same bucket once emptied. *)
Definition fresh_limiter : RateLimiter := NewRateLimiter 5 0.
Definition drained_limiter : RateLimiter :=
  {| rate := 5; bucketSize := 5; tokens := 0; lastUpdate := 0 |}.

(** A cache with default TTL 100ms, and the same after
    [SetWithTTL("k", 7, 50ms)] at time 0. *)
Definition cache0 : Cache := NewCache (100 * Millisecond).
Definition cache_k : Cache :=
  SetWithTTL cache0 "k" (VInt 7) (50 * Millisecond) 0.

(** The world at time [t], nothing run yet. *)
Definition at_time (t : Time) : Exec unit :=
  {| world := {| clock := t; env := tt |}; trace := [] |}.

Definition compute_fails : @OpWithResult unit any :=
  fun w => ((VNil, Some ErrTimeout), w).

(** A client with the three middlewares, as [NewClient] builds it at time 0
    for rate limit 5, retry (3, 1s) and a cache TTL of one minute. *)
Definition client_cfg : Config :=
  {| AppID := 12345; AppKey := "your-app-key"; UserID := 0; Token := "";
     RateLimit := 5; RetryEnabled := true; Tradera.MaxRetries := 3;
     RetryBaseDelay := Second; CacheTTL := 60 * Second; Timeout := 30 * Second |}.

Definition client0 : Client :=
  {| Tradera.config := client_cfg;
     rateLimiter := Some fresh_limiter;
     retryer := Some (NewRetryer client_config);
     cache := Some (NewCache (60 * Second)) |}.

Definition cats : list Category := [mkCategory 1 "Antikt" []].



(** A remote call whose response is the category list itself. *)
Definition remote_ok : @OpWithResult unit (list Category) :=
  fun w => ((cats, None), w).

End Examples.

Module MoreExamples.

Import Tradera Cache.

(** A client with a cache and no other middleware, and the client a first
    successful [GetCategories] at time 0 leaves. *)
Definition client_cache_only : Client :=
  {| Tradera.config := Examples.client_cfg; rateLimiter := None;
     retryer := None; cache := Some (NewCache (60 * Second)) |}.

Definition client_cache_only_filled : Client :=
  with_cache client_cache_only
    (Set_ (NewCache (60 * Second)) "categories" (VCategories Examples.cats) 0).

(** A client with no middleware at all. *)
Definition client_plain : Client :=
  {| Tradera.config := DefaultConfig 12345 "your-app-key";
     rateLimiter := None; retryer := None; cache := None |}.

(** A deadline 300ms after time 0. *)
Definition deadline_300ms : Context :=
  {| done_at := Some (300 * Millisecond); done_err := ContextDeadlineExceeded |}.

(** The world at time 0 with a script of two retryable failures, a success
    and one more result. *)
Definition scripted_start : Exec (list (option error)) :=
  {| world := {| clock := 0;
                 env := [Some ErrTimeout; Some ErrRateLimited; None; Some ErrNotFound] |};
     trace := [] |}.

Definition compute_one : @Retry.OpWithResult unit any :=
  fun w => ((VInt 1, None), w).

Definition compute_seven : @Retry.OpWithResult unit any :=
  fun w => ((VString "seven", None), w).

End MoreExamples.

(* ===================================================================== *)
(** * Properties *)
(* ===================================================================== *)

(** ** Rationals and truncation *)

Lemma Qlt_bool_iff (x y : Q) : Qlt_bool x y = true <-> (x < y)%Q.
Proof.
  unfold Qlt_bool. rewrite negb_true_iff.
  destruct (Qle_bool y x) eqn:E.
  - apply Qle_bool_iff in E. split; [discriminate | intros H; exfalso; lra].
  - split; [intros _ | reflexivity].
    apply Qnot_le_lt. intros H. apply Qle_bool_iff in H. congruence.
Qed.

Lemma Qlt_bool_false (x y : Q) : Qlt_bool x y = false <-> (y <= x)%Q.
Proof.
  unfold Qlt_bool. rewrite negb_false_iff. apply Qle_bool_iff.
Qed.

#[global] Instance Qtrunc_comp : Proper (Qeq ==> eq) Qtrunc.
Proof.
  intros x y E. unfold Qtrunc. rewrite E.
  destruct (Qle_bool 0 y); [apply Qfloor_comp | apply Qceiling_comp]; exact E.
Qed.

Lemma Qtrunc_nonneg (q : Q) : (0 <= q)%Q -> Qtrunc q = Qfloor q /\ 0 <= Qtrunc q.
Proof.
  intros H. unfold Qtrunc.
  apply Qle_bool_iff in H as Hb. rewrite Hb. split; [reflexivity|].
  change 0 with (Qfloor 0). apply Qfloor_resp_le. exact H.
Qed.

Lemma Qtrunc_inject_Z (z : Z) : Qtrunc (inject_Z z) = z.
Proof.
  unfold Qtrunc. destruct (Qle_bool 0 (inject_Z z)); [apply Qfloor_Z | apply Qceiling_Z].
Qed.



(** Booleans of the code to propositions. *)
Ltac bool_to_prop :=
  repeat match goal with
  | H : (_ <=? _) = true |- _ => apply Z.leb_le in H
  | H : (_ <=? _) = false |- _ => apply Z.leb_gt in H
  | H : Qle_bool _ _ = true |- _ => apply Qle_bool_iff in H
  | H : Qle_bool _ _ = false |- _ =>
      apply not_true_iff_false in H; rewrite Qle_bool_iff in H; apply Qnot_le_lt in H
  | H : Qlt_bool _ _ = true |- _ => apply Qlt_bool_iff in H
  | H : Qlt_bool _ _ = false |- _ => apply Qlt_bool_false in H
  end.

(** ** Backoff delays *)

Import Retry.

(** One [let] of [NewRetryer] at a time: its binding is substituted once
    its test is decided, so that no undecided conditional is ever copied. *)
Ltac let_step :=
  lazymatch goal with
  | |- config (let c := ?V in @?B c) = ?R => change (config (B V) = R); cbv beta
  end.

Ltac retry_fields :=
  cbv beta iota delta [MaxRetries BaseDelay MaxDelay Multiplier Jitter ShouldRetry].

(** The configuration [NewRetryer] keeps, field by field: each field is
    defaulted on its own, and the predicate is never touched. *)
Lemma NewRetryer_config (c : RetryConfig) :
  config (NewRetryer c) =
  {| MaxRetries := if MaxRetries c <=? 0 then 3 else MaxRetries c;
     BaseDelay := if BaseDelay c <=? 0 then Second else BaseDelay c;
     MaxDelay := if MaxDelay c <=? 0 then 30 * Second else MaxDelay c;
     Multiplier := if Qle_bool (Multiplier c) 0 then 2 else Multiplier c;
     Jitter := if Qlt_bool (Jitter c) 0 then 0
               else if Qlt_bool 1 (Jitter c) then 1 else Jitter c;
     ShouldRetry := ShouldRetry c |}.
Proof.
  destruct c as [m b x mu j s]. cbv beta delta [NewRetryer]. retry_fields.
  destruct (m <=? 0); let_step; retry_fields;
  (destruct (b <=? 0); let_step; retry_fields;
   (destruct (x <=? 0); let_step; retry_fields;
    (destruct (Qle_bool mu 0); let_step; retry_fields;
     (destruct (Qlt_bool j 0); let_step; retry_fields;
      [ change (Qlt_bool 1 0) with false | destruct (Qlt_bool 1 j) ];
      reflexivity)))).
Qed.

(** What [NewRetryer] guarantees of the configuration it keeps. *)
Lemma NewRetryer_normal (c : RetryConfig) :
  let c' := config (NewRetryer c) in
  0 < MaxRetries c' /\ 0 < BaseDelay c' /\ 0 < MaxDelay c' /\
  (0 < Multiplier c')%Q /\ (0 <= Jitter c')%Q /\ (Jitter c' <= 1)%Q /\
  ShouldRetry c' = ShouldRetry c.
Proof.
  intros c'. subst c'. rewrite NewRetryer_config.
  cbn [MaxRetries BaseDelay MaxDelay Multiplier Jitter ShouldRetry].
  repeat split.
  - destruct (MaxRetries c <=? 0) eqn:E; bool_to_prop; lia.
  - destruct (BaseDelay c <=? 0) eqn:E; bool_to_prop; unfold Second; lia.
  - destruct (MaxDelay c <=? 0) eqn:E; bool_to_prop; unfold Second; lia.
  - destruct (Qle_bool (Multiplier c) 0) eqn:E; bool_to_prop; lra.
  - destruct (Qlt_bool (Jitter c) 0) eqn:E; [lra|].
    destruct (Qlt_bool 1 (Jitter c)) eqn:E1; bool_to_prop; lra.
  - destruct (Qlt_bool (Jitter c) 0) eqn:E; [lra|].
    destruct (Qlt_bool 1 (Jitter c)) eqn:E1; bool_to_prop; lra.
Qed.




(** C9.  With [BaseDelay = 100ms], [Multiplier = 2], [MaxDelay = 1s] and
    [Jitter = 0] the delays of attempts 0 to 4 are exactly 100ms, 200ms,
    400ms, 800ms and 1000ms, whatever [MaxRetries], the predicate and the
    random source are. *)
Theorem C9_backoff_growth (m : Z) (sr : option (error -> bool)) (u : Q) :
  let r := NewRetryer (Examples.growth_config m sr) in
  calculateDelay r 0 u = 100 * Millisecond /\
  calculateDelay r 1 u = 200 * Millisecond /\
  calculateDelay r 2 u = 400 * Millisecond /\
  calculateDelay r 3 u = 800 * Millisecond /\
  calculateDelay r 4 u = 1000 * Millisecond /\
  (inject_Z (BaseDelay (config r)) * Qpower (Multiplier (config r)) 4
     == inject_Z (1600 * Millisecond))%Q.
Proof.
  intros r. unfold calculateDelay. subst r.
  rewrite (NewRetryer_config (Examples.growth_config m sr)).
  cbn [Examples.growth_config MaxRetries BaseDelay MaxDelay Multiplier Jitter ShouldRetry].
  vm_compute. repeat split; reflexivity.
Qed.

(** ** Error classification *)

(** C4.  [IsRetryable] is a function of the error value alone; it is true
    for a [NetworkError], for [ErrRateLimited] and for [ErrTimeout], false
    for a [SOAPFault], an [APIError], the nil error, the other sentinels,
    the context errors and errors of unknown type; wrapping keeps the
    class, and in general an error is retryable exactly when [errors.As]
    finds a [NetworkError] in it or [errors.Is] finds one of the two
    sentinels: everything else is not retried. *)
Theorem C4_IsRetryable_table :
  IsRetryable None = false /\
  (forall op inner, IsRetryable (Some (NetworkError op inner)) = true) /\
  IsRetryable (Some ErrRateLimited) = true /\
  IsRetryable (Some ErrTimeout) = true /\
  (forall code str detail, IsRetryable (Some (SOAPFault code str detail)) = false) /\
  (forall code msg details, IsRetryable (Some (APIError code msg details)) = false) /\
  (forall msg, IsRetryable (Some (Other msg)) = false) /\
  IsRetryable (Some ErrInvalidAppID) = false /\
  IsRetryable (Some ErrInvalidAppKey) = false /\
  IsRetryable (Some ErrAuthRequired) = false /\
  IsRetryable (Some ErrNotFound) = false /\
  IsRetryable (Some ContextCanceled) = false /\
  IsRetryable (Some ContextDeadlineExceeded) = false /\
  (forall msg e, IsRetryable (Some (Wrapped msg e)) = IsRetryable (Some e)) /\
  (forall e, IsRetryable (Some e) =
             As_NetworkError e || Is e ErrRateLimited || Is e ErrTimeout).
Proof.
  repeat split; try reflexivity.
  intros e. unfold IsRetryable.
  destruct (As_NetworkError e), (Is e ErrRateLimited), (Is e ErrTimeout),
    (As_SOAPFault e), (As_APIError e); reflexivity.
Qed.

(** ** Traces *)

Lemma calls_app (a b : list Event) : calls (a ++ b) = (calls a + calls b)%nat.
Proof.
  induction a as [|e a IH]; [reflexivity|].
  cbn [app calls]. destruct (is_call e); rewrite IH; reflexivity.
Qed.

Lemma last_call_app (a b : list Event) (res : option error) :
  last_call b = Some res -> last_call (a ++ b) = Some res.
Proof.
  intros H. induction a as [|e a IH]; [exact H|].
  cbn [app last_call]. rewrite IH. reflexivity.
Qed.

Section SelectFacts.

Context {Env : Type}.
Implicit Types (x : Exec Env) (ctx : Context).

(** [select] changes the clock only. *)
Lemma select_trace ctx pick d x :
  trace (snd (select_done_or_after ctx pick d x)) = trace x /\
  env (world (snd (select_done_or_after ctx pick d x))) = env (world x).
Proof.
  unfold select_done_or_after.
  destruct (ctx_Done ctx (clock (world x))), (d <=? 0), pick, (done_at ctx) as [t|];
    try (split; reflexivity);
    destruct (t <? clock (world x) + d), (clock (world x) + d <? t);
    split; reflexivity.
Qed.

(** A context that is never done lets the timer fire. *)
Lemma select_never_done ctx pick d x :
  done_at ctx = None ->
  fst (select_done_or_after ctx pick d x) = TimerFired.
Proof.
  intros H. unfold select_done_or_after, ctx_Done. rewrite H.
  destruct (d <=? 0); reflexivity.
Qed.


End SelectFacts.

(** ** The retry loop *)

Section DoFacts.

Context {Env : Type}.
Variable o : Oracle.
Implicit Types (x : Exec Env) (ctx : Context) (r : Retryer) (fn : @Op Env).

Lemma invoke_eq fn x :
  invoke fn x =
    (fst (fn (world x)),
     {| world := snd (fn (world x));
        trace := trace x ++ [EvCall (fst (fn (world x)))] |}).
Proof. unfold invoke. destruct (fn (world x)); reflexivity. Qed.

(** The loop of [Do] returns as soon as it has the fuel of its remaining
    iterations, and adds only calls and backoffs to the trace. *)
Lemma Do_loop_returns r ctx fn (fuel : nat) :
  forall attempt lastErr x,
    (Z.to_nat (MaxRetries (config r) - attempt + 1) <= fuel)%nat ->
    exists res x' tr,
      Do_loop o r ctx fn fuel attempt lastErr x = Some (res, x') /\
      trace x' = trace x ++ tr /\
      Forall (fun e => is_retry_event e = true) tr.
Proof.
  induction fuel as [|fuel IH]; intros attempt lastErr x Hfuel.
  - cbn [Do_loop]. destruct (MaxRetries (config r) <? attempt) eqn:E.
    + exists lastErr, x, []. rewrite app_nil_r. repeat split. constructor.
    + apply Z.ltb_ge in E. lia.
  - cbn [Do_loop]. destruct (MaxRetries (config r) <? attempt) eqn:E.
    { exists lastErr, x, []. rewrite app_nil_r. repeat split. constructor. }
    apply Z.ltb_ge in E. rewrite invoke_eq.
    set (x1 := {| world := _; trace := _ |}).
    destruct (fst (fn (world x))) as [err|] eqn:Hres.
    2:{ exists None, x1, [EvCall None]. repeat split.
        repeat constructor. }
    destruct (gives_up r err).
    { exists (Some err), x1, [EvCall (Some err)]. repeat split. repeat constructor. }
    destruct (attempt =? MaxRetries (config r)) eqn:Hlast.
    { exists (Some err), x1, [EvCall (Some err)]. repeat split. repeat constructor. }
    apply Z.eqb_neq in Hlast.
    set (d := calculateDelay r attempt (rnd o attempt)).
    pose proof (select_trace ctx (pick_retry o attempt) d (log (EvBackoff d) x1)) as [Htr _].
    destruct (select_done_or_after ctx (pick_retry o attempt) d (log (EvBackoff d) x1))
      as [[|] x2]; cbn [snd] in Htr.
    + exists (ctx_Err ctx (clock (world x2))), x2, [EvCall (Some err); EvBackoff d].
      split; [reflexivity|]. split; [|repeat constructor].
      rewrite Htr. cbn. rewrite <- app_assoc. reflexivity.
    + destruct (IH (attempt + 1) (Some err) x2) as (res & x' & tr & Hrun & Htr' & Hev); [lia|].
      exists res, x', ([EvCall (Some err); EvBackoff d] ++ tr).
      split; [exact Hrun|]. split.
      * rewrite Htr', Htr. cbn. rewrite <- !app_assoc. reflexivity.
      * repeat constructor. exact Hev.
Qed.

(** [Do] always returns. *)
Lemma Do_returns r ctx fn x :
  exists res x' tr,
    Do o r ctx fn x = Some (res, x') /\
    trace x' = trace x ++ tr /\
    Forall (fun e => is_retry_event e = true) tr.
Proof.
  unfold Do. apply Do_loop_returns. lia.
Qed.

(** Every invocation fails with an error the policy retries, the context is
    never done: the loop runs to its last attempt. *)
Lemma Do_loop_exhausts r ctx fn :
  done_at ctx = None ->
  (forall w, exists e, fst (fn w) = Some e /\ gives_up r e = false) ->
  forall (fuel : nat) attempt lastErr x,
    0 <= attempt <= MaxRetries (config r) ->
    fuel = Z.to_nat (MaxRetries (config r) - attempt + 1) ->
    exists e x' tr,
      Do_loop o r ctx fn fuel attempt lastErr x = Some (Some e, x') /\
      trace x' = trace x ++ tr /\
      calls tr = fuel /\
      last_call tr = Some (Some e).
Proof.
  intros Hctx Hfn. induction fuel as [|fuel IH]; intros attempt lastErr x Hrange Hfuel; [lia|].
  cbn [Do_loop]. destruct (MaxRetries (config r) <? attempt) eqn:E; [apply Z.ltb_lt in E; lia|].
  rewrite invoke_eq. set (x1 := {| world := _; trace := _ |}).
  destruct (Hfn (world x)) as (err & Hres & Hretry). rewrite Hres, Hretry.
  destruct (attempt =? MaxRetries (config r)) eqn:Hlast.
  - apply Z.eqb_eq in Hlast.
    exists err, x1, [EvCall (Some err)]. subst x1. rewrite Hres.
    repeat split. cbn. lia.
  - apply Z.eqb_neq in Hlast.
    set (d := calculateDelay r attempt (rnd o attempt)).
    pose proof (select_trace ctx (pick_retry o attempt) d (log (EvBackoff d) x1)) as [Htr _].
    pose proof (select_never_done ctx (pick_retry o attempt) d (log (EvBackoff d) x1) Hctx) as Hsel.
    destruct (select_done_or_after ctx (pick_retry o attempt) d (log (EvBackoff d) x1))
      as [sel x2]; cbn [fst snd] in Htr, Hsel. subst sel.
    destruct (IH (attempt + 1) (Some err) x2) as (e & x' & tr & Hrun & Htr' & Hcalls & Hlastcall);
      [lia | lia |].
    exists e, x', ([EvCall (Some err); EvBackoff d] ++ tr).
    split; [exact Hrun|]. split; [|split].
    + rewrite Htr', Htr. subst x1. cbn. rewrite Hres, <- !app_assoc. reflexivity.
    + rewrite calls_app, Hcalls. reflexivity.
    + apply last_call_app. exact Hlastcall.
Qed.

End DoFacts.

(** ** The retryer and the limiter under cancellation *)

Import Ratelimit.

Section RetryClaims.
Context {Env : Type}.
Variable o : Oracle.
Implicit Types (x : Exec Env) (ctx : Context) (r : Retryer) (fn : @Op Env).

(** The first iteration of [Do], for a retryer with [MaxRetries >= 0]. *)
Lemma Do_first_attempt r ctx fn x :
  0 <= MaxRetries (config r) ->
  let first := fst (fn (world x)) in
  let x1 := {| world := snd (fn (world x)); trace := trace x ++ [EvCall first] |} in
  Do o r ctx fn x =
    match first with
    | None => Some (None, x1)
    | Some err =>
        if gives_up r err then Some (Some err, x1)
        else if 0 =? MaxRetries (config r) then Some (Some err, x1)
        else
          let delay := calculateDelay r 0 (rnd o 0) in
          match select_done_or_after ctx (pick_retry o 0) delay
                  (log (EvBackoff delay) x1) with
          | (CtxDone, x2) => Some (ctx_Err ctx (clock (world x2)), x2)
          | (TimerFired, x2) =>
              Do_loop o r ctx fn (Z.to_nat (MaxRetries (config r))) 1 (Some err) x2
          end
    end.
Proof.
  intros HM first x1. unfold Do.
  replace (Z.to_nat (MaxRetries (config r) + 1)) with (S (Z.to_nat (MaxRetries (config r)))) by lia.
  cbn [Do_loop].
  destruct (MaxRetries (config r) <? 0) eqn:E; [apply Z.ltb_lt in E; lia|].
  rewrite invoke_eq. reflexivity.
Qed.

(** C3.  [Do] on a retryer built by [NewRetryer], with a context that is
    never done.  If every invocation fails with an error the policy
    classifies as non-retryable, the operation is invoked exactly once and
    the error of that invocation is returned.  If every invocation fails
    with a retryable error, the operation is invoked exactly
    [MaxRetries + 1] times and the error of the last invocation is
    returned. *)
Theorem C3_Do_attempts (c : RetryConfig) ctx fn x :
  done_at ctx = None ->
  let r := NewRetryer c in
  ((forall w, exists e, fst (fn w) = Some e /\ gives_up r e = true) ->
   exists e x' tr,
     Do o r ctx fn x = Some (Some e, x') /\
     trace x' = trace x ++ tr /\
     calls tr = 1%nat /\
     last_call tr = Some (Some e))
  /\
  ((forall w, exists e, fst (fn w) = Some e /\ gives_up r e = false) ->
   exists e x' tr,
     Do o r ctx fn x = Some (Some e, x') /\
     trace x' = trace x ++ tr /\
     calls tr = Z.to_nat (MaxRetries (config r) + 1) /\
     last_call tr = Some (Some e)).
Proof.
  intros Hctx r.
  destruct (NewRetryer_normal c) as (HM & _). fold r in HM.
  split; intros Hfn.
  - destruct (Hfn (world x)) as (e & Hres & Hstop).
    exists e, {| world := snd (fn (world x)); trace := trace x ++ [EvCall (Some e)] |},
      [EvCall (Some e)].
    rewrite Do_first_attempt by lia. cbn zeta. rewrite Hres, Hstop.
    repeat split.
  - unfold Do. apply Do_loop_exhausts; [exact Hctx | exact Hfn | lia | f_equal; lia].
Qed.


End RetryClaims.

Lemma C3_Do_attempts_witness :
  (exists e x' tr,
     Do Examples.oracle0 (NewRetryer Examples.client_config) Background
        Examples.faults Examples.start = Some (Some e, x') /\
     trace x' = trace Examples.start ++ tr /\
     calls tr = 1%nat /\ last_call tr = Some (Some e))
  /\
  (exists e x' tr,
     Do Examples.oracle0 (NewRetryer Examples.client_config) Background
        Examples.times_out Examples.start = Some (Some e, x') /\
     trace x' = trace Examples.start ++ tr /\
     calls tr = 4%nat /\ last_call tr = Some (Some e)).
Proof.
  split.
  - apply (proj1 (C3_Do_attempts Examples.oracle0 Examples.client_config Background
                    Examples.faults Examples.start eq_refl)).
    intros w. exists (SOAPFault "Client" "bad request" ""). split; reflexivity.
  - apply (proj2 (C3_Do_attempts Examples.oracle0 Examples.client_config Background
                    Examples.times_out Examples.start eq_refl)).
    intros w. exists ErrTimeout. split; reflexivity.
Defined.



(** ** The token bucket *)

Import Ratelimit.

Lemma Seconds_nonneg (d : Z) : 0 <= d -> (0 <= Seconds d)%Q.
Proof.
  intros H. unfold Seconds, Qdiv. apply Qmult_le_0_compat.
  - change 0%Q with (inject_Z 0). rewrite <- Zle_Qle. exact H.
  - apply Qinv_le_0_compat. unfold Second. discriminate.
Qed.

Lemma Seconds_zero : (Seconds 0 == 0)%Q.
Proof. reflexivity. Qed.

Lemma refillTokens_ok (r : RateLimiter) (now : Time) :
  (0 <= rate r)%Q -> lastUpdate r <= now -> bucket_ok r ->
  bucket_ok (refillTokens r now) /\
  lastUpdate (refillTokens r now) = now /\
  rate (refillTokens r now) = rate r /\
  bucketSize (refillTokens r now) = bucketSize r.
Proof.
  intros Hrate Hnow [H0 Hcap]. unfold refillTokens, bucket_ok. cbn.
  pose proof (Seconds_nonneg (now - lastUpdate r) ltac:(lia)) as Hs.
  pose proof (Qmult_le_0_compat _ _ Hs Hrate) as Hadd.
  destruct (Qlt_bool (bucketSize r) (tokens r + Seconds (now - lastUpdate r) * rate r))
    eqn:E; bool_to_prop; repeat split; lra.
Qed.

(** With no time elapsed, a refill leaves the tokens as they are. *)
Lemma refillTokens_same_instant (r : RateLimiter) :
  (tokens r <= bucketSize r)%Q ->
  (tokens (refillTokens r (lastUpdate r)) == tokens r)%Q.
Proof.
  intros Hcap. unfold refillTokens. cbn. rewrite Z.sub_diag.
  assert (E : (tokens r + Seconds 0 * rate r == tokens r)%Q).
  { rewrite Seconds_zero. ring. }
  destruct (Qlt_bool (bucketSize r) (tokens r + Seconds 0 * rate r)) eqn:B;
    bool_to_prop; lra.
Qed.

Lemma TryAcquire_all_same_instant (times : list Time) :
  forall r : RateLimiter,
    Forall (fun t => t = lastUpdate r) times ->
    (0 <= tokens r)%Q -> (tokens r <= bucketSize r)%Q ->
    (inject_Z (Z.of_nat (fst (TryAcquire_all times r))) <= tokens r)%Q.
Proof.
  induction times as [|t times IH]; intros r Hall H0 Hcap.
  - cbn. exact H0.
  - inversion Hall as [|? ? Ht Hrest]; subst.
    pose proof (refillTokens_same_instant r Hcap) as Hsame.
    cbn [TryAcquire_all]. unfold TryAcquire.
    set (r' := refillTokens r (lastUpdate r)) in *.
    assert (Hlast : lastUpdate r' = lastUpdate r) by reflexivity.
    assert (Hsize : bucketSize r' = bucketSize r) by reflexivity.
    destruct (Qle_bool 1 (tokens r')) eqn:E; bool_to_prop.
    + set (r1 := {| rate := rate r'; bucketSize := bucketSize r';
                    tokens := (tokens r' - 1)%Q; lastUpdate := lastUpdate r' |}).
      specialize (IH r1). cbn [tokens bucketSize lastUpdate r1] in IH.
      destruct (TryAcquire_all times r1) as [n r2]. cbn [fst] in *.
      rewrite Nat2Z.inj_succ. unfold Z.succ. rewrite inject_Z_plus.
      assert ((inject_Z (Z.of_nat n) <= tokens r' - 1)%Q).
      { apply IH; [rewrite Hlast; exact Hrest | lra | rewrite Hsize; lra]. }
      change (inject_Z 1) with 1%Q. lra.
    + specialize (IH r').
      destruct (TryAcquire_all times r') as [n r2]. cbn [fst] in *.
      assert ((inject_Z (Z.of_nat n) <= tokens r')%Q).
      { apply IH; [rewrite Hlast; exact Hrest | lra | rewrite Hsize; lra]. }
      lra.
Qed.

Lemma TryAcquire_ok (r : RateLimiter) (now : Time) :
  (0 <= rate r)%Q -> lastUpdate r <= now -> bucket_ok r ->
  bucket_ok (snd (TryAcquire r now)) /\
  lastUpdate (snd (TryAcquire r now)) = now /\
  rate (snd (TryAcquire r now)) = rate r /\
  bucketSize (snd (TryAcquire r now)) = bucketSize r /\
  (inject_Z (Z.of_nat (if fst (TryAcquire r now) then 1 else 0))
     + tokens (snd (TryAcquire r now)) <= bucketSize r)%Q.
Proof.
  intros Hrate Hnow Hok.
  destruct (refillTokens_ok r now Hrate Hnow Hok) as ([H0 Hcap] & Hlast & Hr & Hsize).
  unfold TryAcquire.
  destruct (Qle_bool 1 (tokens (refillTokens r now))) eqn:E; bool_to_prop;
    cbn [fst snd]; unfold bucket_ok; cbn [tokens bucketSize lastUpdate rate];
    change (inject_Z (Z.of_nat 1)) with 1%Q; change (inject_Z (Z.of_nat 0)) with 0%Q;
    rewrite <- ?Hsize, ?Hlast, ?Hr;
    repeat split; try assumption; try reflexivity; try lra.
Qed.

Lemma TryAcquire_all_burst (times : list Time) (t : Time) :
  forall r : RateLimiter,
    (0 <= rate r)%Q -> lastUpdate r <= t -> bucket_ok r ->
    Forall (fun t' => t' = t) times ->
    (inject_Z (Z.of_nat (fst (TryAcquire_all times r))) <= bucketSize r)%Q.
Proof.
  intros r Hrate Hnow Hok Hall. destruct times as [|t' times].
  - destruct Hok as [H0 Hcap]. cbn [TryAcquire_all fst].
    change (inject_Z (Z.of_nat 0)) with 0%Q. lra.
  - inversion Hall as [|? ? Ht Hrest]; subst.
    destruct (TryAcquire_ok r t Hrate Hnow Hok) as ([H0 Hcap] & Hlast & _ & Hsize & Hsum).
    cbn [TryAcquire_all].
    destruct (TryAcquire r t) as [ok r1]. cbn [fst snd] in *.
    pose proof (TryAcquire_all_same_instant times r1) as Hrec.
    destruct (TryAcquire_all times r1) as [n r2]. cbn [fst] in *.
    assert (Hn : (inject_Z (Z.of_nat n) <= tokens r1)%Q).
    { apply Hrec; [rewrite Hlast; exact Hrest | exact H0 | exact Hcap]. }
    destruct ok.
    + rewrite Nat2Z.inj_succ. unfold Z.succ. rewrite inject_Z_plus.
      change (inject_Z (Z.of_nat 1)) with 1%Q in Hsum. change (inject_Z 1) with 1%Q. lra.
    + change (inject_Z (Z.of_nat 0)) with 0%Q in Hsum. lra.
Qed.

(** C6.  The bucket starts full, and [0 <= tokens <= capacity] holds after
    construction (for a capacity that is not negative) and is kept by
    [refillTokens], [TryAcquire] and [Available] (for a rate that is not
    negative and a clock that does not run backwards); a granted
    [TryAcquire] takes exactly one token; and of any number of [TryAcquire]
    calls made at one instant, with no time elapsed between them, no more
    succeed than the capacity, from any state that satisfies the invariant
    and in particular from the full bucket of a new limiter. *)
Theorem C6_token_bucket :
  (forall (rps burst : Q) (now : Time),
     (0 <= burst)%Q ->
     tokens (NewRateLimiterWithBurst rps burst now) = burst /\
     bucket_ok (NewRateLimiterWithBurst rps burst now))
  /\
  (forall (r : RateLimiter) (now : Time),
     (0 <= rate r)%Q -> lastUpdate r <= now -> bucket_ok r ->
     bucket_ok (refillTokens r now) /\
     bucket_ok (snd (TryAcquire r now)) /\
     bucket_ok (snd (Available r now)) /\
     (fst (Available r now) <= bucketSize r)%Q /\
     (fst (TryAcquire r now) = true ->
      (tokens (snd (TryAcquire r now)) == tokens (refillTokens r now) - 1)%Q))
  /\
  (forall (r : RateLimiter) (t : Time) (times : list Time),
     (0 <= rate r)%Q -> lastUpdate r <= t -> bucket_ok r ->
     Forall (fun t' => t' = t) times ->
     (inject_Z (Z.of_nat (fst (TryAcquire_all times r))) <= bucketSize r)%Q)
  /\
  (forall (rps burst : Q) (now : Time) (times : list Time),
     (0 <= burst)%Q ->
     Forall (fun t => t = now) times ->
     (inject_Z (Z.of_nat (fst (TryAcquire_all times (NewRateLimiterWithBurst rps burst now))))
        <= burst)%Q).
Proof.
  split; [|split; [|split]].
  - intros rps burst now H. split; [reflexivity|]. split; cbn; lra.
  - intros r now Hrate Hnow Hok.
    destruct (refillTokens_ok r now Hrate Hnow Hok) as ([H0 Hcap] & _ & _ & Hsize).
    split; [split; assumption|].
    unfold TryAcquire, Available. cbn [fst snd].
    destruct (Qle_bool 1 (tokens (refillTokens r now))) eqn:E; bool_to_prop;
      cbn [fst snd]; unfold bucket_ok; cbn [tokens bucketSize];
      repeat split; try lra; try (rewrite <- Hsize; lra); try discriminate.
  - intros r t times Hrate Ht Hok Hall.
    apply (TryAcquire_all_burst times t r Hrate Ht Hok Hall).
  - intros rps burst now times Hb Hall.
    apply (TryAcquire_all_same_instant times (NewRateLimiterWithBurst rps burst now));
      cbn; [exact Hall | lra | lra].
Qed.

Lemma C6_token_bucket_witness :
  bucket_ok (NewRateLimiterWithBurst 5 5 0) /\
  bucket_ok (snd (TryAcquire Examples.fresh_limiter 1000)) /\
  (inject_Z (Z.of_nat (fst (TryAcquire_all [1000%Z; 1000%Z; 1000%Z]
                              Examples.drained_limiter)))
     <= bucketSize Examples.drained_limiter)%Q /\
  (inject_Z (Z.of_nat (fst (TryAcquire_all [0%Z; 0%Z; 0%Z; 0%Z; 0%Z; 0%Z; 0%Z]
                              (NewRateLimiterWithBurst 5 5 0%Z)))) <= 5)%Q.
Proof.
  destruct C6_token_bucket as (Hnew & Hkeep & Hany & Hburst).
  split; [apply Hnew; lra|]. split; [|split].
  - apply Hkeep; [cbn; lra | cbn; lia | split; cbn; lra].
  - apply (Hany Examples.drained_limiter 1000);
      [cbn; lra | cbn; lia | split; cbn; lra | repeat constructor].
  - apply Hburst; [lra | repeat constructor].
Defined.

(** ** The cache *)

Import Cache.

Lemma Get_absent (c : Cache) (key : string) (now : Time) :
  entries c !! key = None -> Get c key now = ((VNil, false), c).
Proof. intros H. unfold Get. rewrite H. reflexivity. Qed.

Lemma Get_fresh (c : Cache) (key : string) (now : Time) (e : CacheEntry) :
  entries c !! key = Some e -> now <= Expiration e ->
  Get c key now = ((Value e, true), c).
Proof.
  intros H Hfresh. unfold Get, IsExpired. rewrite H.
  destruct (Expiration e <? now) eqn:E; [apply Z.ltb_lt in E; lia | reflexivity].
Qed.

Lemma Get_expired (c : Cache) (key : string) (now : Time) (e : CacheEntry) :
  entries c !! key = Some e -> Expiration e < now ->
  Get c key now = ((VNil, false), Delete c key).
Proof.
  intros H Hold. unfold Get, IsExpired. rewrite H.
  destruct (Expiration e <? now) eqn:E; [reflexivity | apply Z.ltb_ge in E; lia].
Qed.

(** After a miss the cache has no entry for the key, and the other keys are
    as before. *)
Lemma Get_miss (c : Cache) (key : string) (now : Time) :
  snd (fst (Get c key now)) = false ->
  fst (fst (Get c key now)) = VNil /\
  entries (snd (Get c key now)) = delete key (entries c) /\
  entries (snd (Get c key now)) !! key = None.
Proof.
  unfold Get, IsExpired. destruct (entries c !! key) as [e|] eqn:H.
  - destruct (Expiration e <? now); cbn; [|discriminate].
    intros _. split; [reflexivity|]. split; [reflexivity|]. apply lookup_delete_eq.
  - cbn. intros _. split; [reflexivity|]. split; [|exact H].
    symmetry. apply delete_id. exact H.
Qed.

(** C7.  [Get] returns [(value, true)] exactly when the key has an entry
    whose expiration has not passed; an entry that has expired is deleted
    by the read, which returns [(nil, false)]; hence a value stored with a
    TTL is returned up to the end of the TTL and is not found afterwards,
    the read having removed it from the count of [Size]. *)
Theorem C7_Get_freshness (c : Cache) (key : string) (now : Time) :
  (forall v, fst (Get c key now) = (v, true) <->
             exists e, entries c !! key = Some e /\ now <= Expiration e /\ v = Value e)
  /\
  (forall e, entries c !! key = Some e -> Expiration e < now ->
     Get c key now = ((VNil, false), Delete c key) /\
     entries (Delete c key) !! key = None /\
     Size (Delete c key) = pred (Size c))
  /\
  (forall (v : any) (ttl : Duration) (t : Time),
     let c' := SetWithTTL c key v ttl now in
     (t <= now + ttl -> Get c' key t = ((v, true), c')) /\
     (now + ttl < t ->
        fst (Get c' key t) = (VNil, false) /\
        entries (snd (Get c' key t)) !! key = None /\
        Size (snd (Get c' key t)) = pred (Size c'))).
Proof.
  split; [|split].
  - intros v. split.
    + unfold Get, IsExpired. destruct (entries c !! key) as [e|] eqn:H; [|discriminate].
      destruct (Expiration e <? now) eqn:E; [discriminate|].
      cbn. intros [= <-]. exists e. apply Z.ltb_ge in E. auto.
    + intros (e & H & Hfresh & ->). rewrite (Get_fresh c key now e H Hfresh). reflexivity.
  - intros e H Hold. split; [apply Get_expired with e; assumption|].
    split; [apply lookup_delete_eq|].
    unfold Size, Delete. cbn. rewrite map_size_delete, H. reflexivity.
  - intros v ttl t c'.
    assert (Hc' : entries c' !! key = Some {| Value := v; Expiration := now + ttl |}).
    { unfold c', SetWithTTL. cbn. apply lookup_insert_eq. }
    split.
    + intros Ht. apply (Get_fresh c' key t _ Hc'). cbn. exact Ht.
    + intros Ht. rewrite (Get_expired c' key t _ Hc') by (cbn; exact Ht). cbn [fst snd].
      split; [reflexivity|]. split; [apply lookup_delete_eq|].
      unfold Size, Delete. cbn [entries with_entries]. rewrite map_size_delete, Hc'. reflexivity.
Qed.

Lemma C7_Get_freshness_witness :
  Get Examples.cache_k "k" 0 = ((VInt 7, true), Examples.cache_k) /\
  fst (Get Examples.cache_k "k" (60 * Millisecond)) = (VNil, false) /\
  entries (snd (Get Examples.cache_k "k" (60 * Millisecond))) !! "k" = None.
Proof.
  destruct (C7_Get_freshness Examples.cache0 "k" 0) as (_ & _ & H).
  split.
  - apply (H (VInt 7) (50 * Millisecond) 0). unfold Millisecond. lia.
  - destruct (H (VInt 7) (50 * Millisecond) (60 * Millisecond)) as [_ Hold].
    destruct Hold as (Hmiss & Hgone & _); [unfold Millisecond; lia|].
    split; [exact Hmiss | exact Hgone].
Defined.

Section ComputeClaims.

Context {Env : Type}.
Implicit Types (x : Exec Env) (fn : @Retry.OpWithResult Env any).

Lemma invokeWithResult_eq {T : Type} (fn : @Retry.OpWithResult Env T) x :
  Retry.invokeWithResult fn x =
    (fst (fn (world x)),
     {| world := snd (fn (world x));
        trace := trace x ++ [EvCall (snd (fst (fn (world x))))] |}).
Proof. unfold Retry.invokeWithResult. destruct (fn (world x)); reflexivity. Qed.

(** C8 (amended).  [GetOrSet] returns a fresh cached value without invoking
    [fn].  On a miss it invokes [fn] once.  If [fn] fails, [GetOrSet]
    returns [(nil, err)] and stores nothing: the cache is as the opening
    [Get] left it, that is the map without the key (an expired entry for
    the key has been evicted by that [Get], an absent key leaves the map as
    it was, other keys are untouched), so a later [GetOrSet] for the key
    invokes its function again.  If [fn] succeeds, the value is stored
    under the default TTL, counted from the clock after [fn], and
    returned. *)
Theorem C8_GetOrSet (c : Cache) (key : string) fn x :
  let now := clock (world x) in
  let res := fst (fn (world x)) in
  let x1 := {| world := snd (fn (world x)); trace := trace x ++ [EvCall (snd res)] |} in
  let c1 := snd (Get c key now) in
  (forall v, fst (Get c key now) = (v, true) ->
     GetOrSet c key fn x = ((v, None), c, x))
  /\
  (snd (fst (Get c key now)) = false ->
     entries c1 = delete key (entries c) /\
     (forall err, snd res = Some err ->
        GetOrSet c key fn x = ((VNil, Some err), c1, x1) /\
        entries c1 !! key = None /\
        (forall k, k <> key -> entries c1 !! k = entries c !! k) /\
        (forall fn' x',
           trace (snd (GetOrSet c1 key fn' x')) =
             trace x' ++ [EvCall (snd (fst (fn' (world x'))))])) /\
     (snd res = None ->
        GetOrSet c key fn x =
          ((fst res, None), Set_ c1 key (fst res) (clock (world x1)), x1) /\
        entries (Set_ c1 key (fst res) (clock (world x1))) !! key =
          Some {| Value := fst res;
                  Expiration := clock (world x1) + defaultTTL c |})).
Proof.
  intros now res x1 c1. split.
  - intros v Hhit. unfold GetOrSet. fold now.
    assert (Hc : snd (Get c key now) = c).
    { unfold Get in *. destruct (entries c !! key) as [e|]; [|discriminate].
      destruct (IsExpired e now); [discriminate | reflexivity]. }
    destruct (Get c key now) as [[v' ok] c']. cbn in Hhit, Hc.
    injection Hhit as -> ->. subst c'. reflexivity.
  - intros Hmiss. destruct (Get_miss c key now Hmiss) as (Hnil & Hent & Hnone).
    fold c1 in Hent, Hnone.
    assert (Hrun : GetOrSet c key fn x =
              match res with
              | (_, Some err) => ((VNil, Some err), c1, x1)
              | (value, None) => ((value, None), Set_ c1 key value (clock (world x1)), x1)
              end).
    { unfold GetOrSet. fold now. subst c1.
      destruct (Get c key now) as [[v' ok] c']. cbn in Hmiss. subst ok.
      rewrite invokeWithResult_eq. fold res. fold x1.
      destruct res as [value [err|]]; reflexivity. }
    split; [exact Hent|]. split.
    + intros err Herr. rewrite Hrun. destruct res as [value oerr]. cbn in Herr. subst oerr.
      split; [reflexivity|]. split; [exact Hnone|]. split.
      * intros k Hk. rewrite Hent. apply lookup_delete_ne. congruence.
      * intros fn' x'. unfold GetOrSet.
        rewrite (Get_absent c1 key (clock (world x')) Hnone).
        rewrite invokeWithResult_eq.
        destruct (fst (fn' (world x'))) as [value' [err'|]]; reflexivity.
    + intros Hok. rewrite Hrun. destruct res as [value oerr]. cbn in Hok. subst oerr.
      split; [reflexivity|]. unfold Set_, SetWithTTL. cbn [entries with_entries defaultTTL fst].
      rewrite lookup_insert_eq. do 2 f_equal.
      subst c1. unfold Get. destruct (entries c !! key) as [e|]; [|reflexivity].
      destruct (IsExpired e now); reflexivity.
Qed.

End ComputeClaims.

(** C10 (amended).  For a concrete (non-interface) type [T]: when the cache
    holds a fresh entry whose value does not have dynamic type [T],
    [GetTyped] returns the zero value of [T] and [false], as it does when
    the key is absent, and leaves the cache, with that entry, as it was. *)
Theorem C10_GetTyped_mismatch (T : GoType) (c : Cache) (key : string)
    (now : Time) (e : CacheEntry) :
  is_interface T = false ->
  entries c !! key = Some e ->
  now <= Expiration e ->
  dynamic_type (Value e) <> Some T ->
  GetTyped T c key now = ((zero_value T, false), c) /\
  fst (GetTyped T (Delete c key) key now) = (zero_value T, false) /\
  fst (Get c key now) = (Value e, true).
Proof.
  intros Hconcrete H Hfresh Hty. unfold GetTyped.
  rewrite (Get_fresh c key now e H Hfresh).
  rewrite (Get_absent (Delete c key) key now) by apply lookup_delete_eq.
  split; [|split; reflexivity].
  unfold type_assert. destruct (dynamic_type (Value e)) as [D|]; [|reflexivity].
  rewrite Hconcrete.
  destruct (GoType_eqb D T) eqn:E; [|reflexivity].
  exfalso. apply Hty. destruct D, T; try discriminate; reflexivity.
Qed.

Lemma C10_GetTyped_mismatch_witness :
  GetTyped TString Examples.cache_k "k" 0 = ((VString "", false), Examples.cache_k).
Proof.
  apply (C10_GetTyped_mismatch TString Examples.cache_k "k" 0
           {| Value := VInt 7; Expiration := 50 * Millisecond |});
    [reflexivity | reflexivity | unfold Millisecond; cbn; lia | discriminate].
Defined.

(** C10, as stated for every type, fails at an interface type: asked for
    [any], a stored integer, whose dynamic type is not [any], is found. *)
Lemma C10_counterexample :
  entries Examples.cache_k !! "k" =
    Some {| Value := VInt 7; Expiration := 50 * Millisecond |} /\
  dynamic_type (VInt 7) <> Some TAny /\
  GetTyped TAny Examples.cache_k "k" 0 = ((VInt 7, true), Examples.cache_k).
Proof. split; [reflexivity|]. split; [discriminate | reflexivity]. Qed.

Lemma C8_GetOrSet_witness :
  GetOrSet Examples.cache_k "k" Examples.compute_fails (Examples.at_time 0)
    = ((VInt 7, None), Examples.cache_k, Examples.at_time 0) /\
  GetOrSet Examples.cache_k "k" Examples.compute_fails
      (Examples.at_time (60 * Millisecond))
    = ((VNil, Some ErrTimeout),
       snd (Get Examples.cache_k "k" (60 * Millisecond)),
       {| world := world (Examples.at_time (60 * Millisecond));
          trace := [EvCall (Some ErrTimeout)] |}).
Proof.
  split.
  - apply (C8_GetOrSet Examples.cache_k "k" Examples.compute_fails (Examples.at_time 0)).
    reflexivity.
  - destruct (C8_GetOrSet Examples.cache_k "k" Examples.compute_fails
                (Examples.at_time (60 * Millisecond))) as [_ Hmiss].
    destruct Hmiss as (_ & Hfail & _); [reflexivity|].
    apply (Hfail ErrTimeout). reflexivity.
Defined.

(** C8, as stated, fails where it says the map is left unchanged: when the
    miss is due to an expired entry, the failed call leaves the map without
    that entry. *)
Lemma C8_counterexample :
  snd (fst (fst (GetOrSet Examples.cache_k "k" Examples.compute_fails
                   (Examples.at_time (60 * Millisecond))))) = Some ErrTimeout /\
  entries Examples.cache_k !! "k" =
    Some {| Value := VInt 7; Expiration := 50 * Millisecond |} /\
  entries (snd (fst (GetOrSet Examples.cache_k "k" Examples.compute_fails
                       (Examples.at_time (60 * Millisecond))))) !! "k" = None /\
  entries (snd (fst (GetOrSet Examples.cache_k "k" Examples.compute_fails
                       (Examples.at_time (60 * Millisecond)))))
    <> entries Examples.cache_k.
Proof.
  split; [reflexivity|]. split; [reflexivity|]. split; [reflexivity|].
  intros H. apply (f_equal (fun m => m !! "k")) in H. discriminate H.
Qed.

(** ** The composition *)

Import Tradera.

(** [NewClient] on a valid configuration with the three options set builds
    the three middlewares; the retry policy is [IsRetryable] with the fixed
    cap, multiplier and jitter. *)
Lemma NewClient_example :
  NewClient Examples.client_cfg 0 = inl Examples.client0 /\
  NewClient (DefaultConfig 0 "your-app-key") 0 = inr ErrInvalidAppID /\
  NewClient (DefaultConfig 12345 "your-app-key") 0
    = inl {| config := DefaultConfig 12345 "your-app-key";
             rateLimiter := None; retryer := None; cache := None |}.
Proof. repeat split. Qed.

Section DispatchClaims.

Context {Env : Type}.
Variable o : Oracle.
Implicit Types (x : Exec Env) (ctx : Context) (c : Client).

(** [Wait] adds only limiter events to the trace and never touches what the
    operation sees. *)
Lemma Wait_loop_trace ctx (fuel : nat) :
  forall (i : nat) (rl : RateLimiter) x err rl' x',
    Wait_loop o ctx fuel i rl x = Some (err, rl', x') ->
    exists tl,
      trace x' = trace x ++ tl /\
      Forall (fun e => is_limiter_event e = true) tl /\
      env (world x') = env (world x).
Proof.
  induction fuel as [|fuel IH]; intros i rl x err rl' x' H; [discriminate|].
  cbn [Wait_loop] in H.
  destruct (TryAcquire rl (clock (world x))) as [[|] rl1].
  - injection H as <- <- <-. exists [EvAcquire true]. repeat split. repeat constructor.
  - set (d := timeUntilNextToken rl1) in *.
    pose proof (select_trace ctx (pick_limit o i) d
                  (log (EvLimiterWait d) (log (EvAcquire false) x))) as [Htr Henv].
    destruct (select_done_or_after ctx (pick_limit o i) d
                (log (EvLimiterWait d) (log (EvAcquire false) x))) as [[|] x2];
      cbn [snd] in Htr, Henv.
    + injection H as <- <- <-. exists [EvAcquire false; EvLimiterWait d].
      split; [|split; [repeat constructor | exact Henv]].
      rewrite Htr. cbn. rewrite <- app_assoc. reflexivity.
    + destruct (IH _ _ _ _ _ _ H) as (tl & Htl & Hall & Henv').
      exists ([EvAcquire false; EvLimiterWait d] ++ tl).
      split; [|split; [repeat constructor; exact Hall | rewrite Henv', Henv; reflexivity]].
      rewrite Htl, Htr. cbn. rewrite <- !app_assoc. reflexivity.
Qed.

(** The loop of [DoWithResult] returns, and adds only calls and backoffs. *)
Lemma DoWithResult_loop_returns {T : Type} (r : Retryer) ctx
    (fn : @OpWithResult Env T) (fuel : nat) :
  forall attempt (result : T) lastErr x,
    (Z.to_nat (Retry.MaxRetries (Retry.config r) - attempt + 1) <= fuel)%nat ->
    exists res x' tr,
      DoWithResult_loop o r ctx fn fuel attempt result lastErr x = Some (res, x') /\
      trace x' = trace x ++ tr /\
      Forall (fun e => is_retry_event e = true) tr.
Proof.
  induction fuel as [|fuel IH]; intros attempt result lastErr x Hfuel.
  - cbn [DoWithResult_loop]. destruct (Retry.MaxRetries (Retry.config r) <? attempt) eqn:E.
    + exists (result, lastErr), x, []. rewrite app_nil_r. repeat split. constructor.
    + apply Z.ltb_ge in E. lia.
  - cbn [DoWithResult_loop]. destruct (Retry.MaxRetries (Retry.config r) <? attempt) eqn:E.
    { exists (result, lastErr), x, []. rewrite app_nil_r. repeat split. constructor. }
    apply Z.ltb_ge in E. rewrite invokeWithResult_eq.
    set (x1 := {| world := _; trace := _ |}).
    destruct (fst (fn (world x))) as [value [err|]] eqn:Hres; cbn [snd] in x1.
    2:{ exists (value, None), x1, [EvCall None]. repeat split. repeat constructor. }
    destruct (gives_up r err).
    { exists (value, Some err), x1, [EvCall (Some err)]. repeat split. repeat constructor. }
    destruct (attempt =? Retry.MaxRetries (Retry.config r)) eqn:Hlast.
    { exists (value, Some err), x1, [EvCall (Some err)]. repeat split. repeat constructor. }
    set (d := calculateDelay r attempt (rnd o attempt)).
    pose proof (select_trace ctx (pick_retry o attempt) d (log (EvBackoff d) x1)) as [Htr _].
    destruct (select_done_or_after ctx (pick_retry o attempt) d (log (EvBackoff d) x1))
      as [[|] x2]; cbn [snd] in Htr.
    + exists (value, ctx_Err ctx (clock (world x2))), x2, [EvCall (Some err); EvBackoff d].
      split; [reflexivity|]. split; [|repeat constructor].
      rewrite Htr. cbn. rewrite <- app_assoc. reflexivity.
    + destruct (IH (attempt + 1) value (Some err) x2)
        as (res & x' & tr & Hrun & Htr' & Hev); [lia|].
      exists res, x', ([EvCall (Some err); EvBackoff d] ++ tr).
      split; [exact Hrun|]. split.
      * rewrite Htr', Htr. cbn. rewrite <- !app_assoc. reflexivity.
      * repeat constructor. exact Hev.
Qed.

Lemma DoWithResult_returns {T : Type} (zero : T) (r : Retryer) ctx
    (fn : @OpWithResult Env T) x :
  exists res x' tr,
    DoWithResult o zero r ctx fn x = Some (res, x') /\
    trace x' = trace x ++ tr /\
    Forall (fun e => is_retry_event e = true) tr.
Proof. unfold DoWithResult. apply DoWithResult_loop_returns. lia. Qed.

(** The limiter step: it returns with the limiter events it added, and
    leaves the retryer and the cache of the client alone. *)
Lemma applyRateLimit_trace c ctx (fuel : nat) x err c1 x1 :
  applyRateLimit o c ctx fuel x = Some (err, c1, x1) ->
  exists tl,
    trace x1 = trace x ++ tl /\
    Forall (fun e => is_limiter_event e = true) tl /\
    (rateLimiter c = None -> tl = [] /\ err = None) /\
    retryer c1 = retryer c /\ cache c1 = cache c.
Proof.
  unfold applyRateLimit. destruct (rateLimiter c) as [rl|] eqn:Hrl.
  - destruct (Wait o ctx fuel rl x) as [[[err' rl1] x1']|] eqn:Hw; [|discriminate].
    intros [= <- <- <-]. destruct (Wait_loop_trace _ _ _ _ _ _ _ _ Hw) as (tl & H1 & H2 & _).
    exists tl. repeat split; try assumption; discriminate.
  - intros [= <- <- <-]. exists []. rewrite app_nil_r. repeat split. constructor.
Qed.


Lemma limiter_events_no_call (tl : list Event) :
  Forall (fun e => is_limiter_event e = true) tl -> calls tl = O.
Proof.
  induction 1 as [|e tl He _ IH]; [reflexivity|].
  cbn [calls]. destruct e; try discriminate He; exact IH.
Qed.

Context {Response : Type}.
Variable nilResponse : Response.
Variable categoriesOf : Response -> list Category.




End DispatchClaims.


(** ** The background sweep *)

(** The sweep keeps exactly the entries whose expiration has not passed, so
    after it [Size] and [Keys] count no expired entry. *)
Lemma cleanup_lookup (c : Cache.Cache) (now : Time) (key : string)
    (e : Cache.CacheEntry) :
  Cache.entries (Cache.cleanup c now) !! key = Some e <->
  Cache.entries c !! key = Some e /\ now <= Cache.Expiration e.
Proof.
  unfold Cache.cleanup. cbn [Cache.entries Cache.with_entries].
  rewrite map_lookup_filter_Some. cbn [snd].
  rewrite negb_true_iff, Z.ltb_ge. reflexivity.
Qed.

(* ===================================================================== *)
(** * Further properties *)
(* ===================================================================== *)

(** ** The retry policy *)

Import Retry.

(** X1.  [NewRetryer] is idempotent and keeps a configuration whose fields
    are all in range as it is; a [MaxRetries] of zero or less becomes 3, so
    a retryer always makes at least one retry. *)
Theorem X1_NewRetryer_normalises (c : RetryConfig) :
  NewRetryer (config (NewRetryer c)) = NewRetryer c /\
  (0 < MaxRetries c -> 0 < BaseDelay c -> 0 < MaxDelay c ->
   (0 < Multiplier c)%Q -> (0 <= Jitter c)%Q -> (Jitter c <= 1)%Q ->
   config (NewRetryer c) = c) /\
  (MaxRetries c <= 0 -> MaxRetries (config (NewRetryer c)) = 3) /\
  1 <= MaxRetries (config (NewRetryer c)).
Proof.
  assert (Hkeep : forall c' : RetryConfig,
            0 < MaxRetries c' -> 0 < BaseDelay c' -> 0 < MaxDelay c' ->
            (0 < Multiplier c')%Q -> (0 <= Jitter c')%Q -> (Jitter c' <= 1)%Q ->
            config (NewRetryer c') = c').
  { intros c' Hm Hb Hx Hmu Hj0 Hj1. rewrite NewRetryer_config.
    destruct (MaxRetries c' <=? 0) eqn:E1; [apply Z.leb_le in E1; lia|].
    destruct (BaseDelay c' <=? 0) eqn:E2; [apply Z.leb_le in E2; lia|].
    destruct (MaxDelay c' <=? 0) eqn:E3; [apply Z.leb_le in E3; lia|].
    destruct (Qle_bool (Multiplier c') 0) eqn:E4; [apply Qle_bool_iff in E4; lra|].
    destruct (Qlt_bool (Jitter c') 0) eqn:E5; [apply Qlt_bool_iff in E5; lra|].
    destruct (Qlt_bool 1 (Jitter c')) eqn:E6; [apply Qlt_bool_iff in E6; lra|].
    destruct c'; reflexivity. }
  destruct (NewRetryer_normal c) as (Hm & Hb & Hx & Hmu & Hj0 & Hj1 & _).
  split; [|split; [|split]].
  - transitivity (mkRetryer (config (NewRetryer (config (NewRetryer c))))).
    + destruct (NewRetryer (config (NewRetryer c))). reflexivity.
    + rewrite (Hkeep _ Hm Hb Hx Hmu Hj0 Hj1). destruct (NewRetryer c). reflexivity.
  - apply Hkeep.
  - intros Hle. apply Z.leb_le in Hle. rewrite NewRetryer_config.
    cbn [MaxRetries]. rewrite Hle. reflexivity.
  - lia.
Qed.

Lemma X1_NewRetryer_normalises_witness :
  config (NewRetryer Examples.client_config) = Examples.client_config /\
  MaxRetries (config (NewRetryer (Examples.growth_config 0 None))) = 3.
Proof.
  destruct (X1_NewRetryer_normalises Examples.client_config) as (_ & Hkeep & _).
  destruct (X1_NewRetryer_normalises (Examples.growth_config 0 None)) as (_ & _ & Hzero & _).
  split.
  - apply Hkeep; cbn; unfold Second; try lia; lra.
  - apply Hzero. cbn. lia.
Defined.

(** Truncation is monotone on the rationals that are not negative. *)
Lemma Qtrunc_le_compat (a b : Q) : (0 <= a)%Q -> (a <= b)%Q -> Qtrunc a <= Qtrunc b.
Proof.
  intros Ha Hab. destruct (Qtrunc_nonneg a Ha) as [-> _].
  destruct (Qtrunc_nonneg b ltac:(lra)) as [-> _].
  apply Qfloor_resp_le. exact Hab.
Qed.

(** Truncation never rounds up past an integer bound. *)
Lemma Qtrunc_le_bound (q : Q) (z : Z) : 0 <= z -> (q <= inject_Z z)%Q -> Qtrunc q <= z.
Proof.
  intros Hz Hq. unfold Qtrunc. destruct (Qle_bool 0 q) eqn:E.
  - rewrite <- (Qfloor_Z z). apply Qfloor_resp_le. exact Hq.
  - apply not_true_iff_false in E. rewrite Qle_bool_iff in E. apply Qnot_le_lt in E.
    assert (Qceiling q <= Qceiling 0); [apply Qceiling_resp_le; lra|].
    change (Qceiling 0) with 0 in *. lia.
Qed.

(** Whatever the random source returns, no delay exceeds [MaxDelay]. *)
Lemma calculateDelay_le_MaxDelay (r : Retryer) (n : Z) (u : Q) :
  0 <= MaxDelay (config r) -> calculateDelay r n u <= MaxDelay (config r).
Proof.
  intros Hx. unfold calculateDelay.
  set (d := if Qlt_bool 0 (Jitter (config r)) then _ else _).
  destruct (Qlt_bool (inject_Z (MaxDelay (config r))) d) eqn:E.
  - rewrite Qtrunc_inject_Z. lia.
  - apply Qlt_bool_false in E. apply Qtrunc_le_bound; assumption.
Qed.

(** X2.  Without jitter and with a multiplier of at least one, the delay
    does not decrease from one attempt to the next, and once the exponential
    reaches [MaxDelay] the delay is [MaxDelay] for good. *)
Theorem X2_delay_monotone (c : RetryConfig) (n m : Z) (u u' : Q) :
  let r := NewRetryer c in
  (Jitter (config r) == 0)%Q ->
  (1 <= Multiplier (config r))%Q ->
  n <= m ->
  calculateDelay r n u <= calculateDelay r m u' /\
  ((inject_Z (MaxDelay (config r))
      <= inject_Z (BaseDelay (config r)) * Qpower (Multiplier (config r)) n)%Q ->
   calculateDelay r m u' = MaxDelay (config r)).
Proof.
  intros r HJ HM Hnm.
  destruct (NewRetryer_normal c) as (_ & Hb & Hx & Hmu & _). fold r in Hb, Hx, Hmu.
  assert (Hpow : (Qpower (Multiplier (config r)) n <= Qpower (Multiplier (config r)) m)%Q).
  { apply Qpower_le_compat_l; assumption. }
  assert (HB : (0 < inject_Z (BaseDelay (config r)))%Q).
  { change 0%Q with (inject_Z 0). rewrite <- Zlt_Qlt. exact Hb. }
  assert (HX : (0 < inject_Z (MaxDelay (config r)))%Q).
  { change 0%Q with (inject_Z 0). rewrite <- Zlt_Qlt. exact Hx. }
  pose proof (Qpower_0_lt _ n Hmu) as Hn0.
  assert (Hle : (inject_Z (BaseDelay (config r)) * Qpower (Multiplier (config r)) n
                 <= inject_Z (BaseDelay (config r)) * Qpower (Multiplier (config r)) m)%Q).
  { apply Qmult_le_l; assumption. }
  assert (Hpos : (0 < inject_Z (BaseDelay (config r)) * Qpower (Multiplier (config r)) n)%Q).
  { apply Qmult_lt_0_compat; assumption. }
  assert (Hnj : Qlt_bool 0 (Jitter (config r)) = false).
  { apply Qlt_bool_false. lra. }
  unfold calculateDelay. rewrite Hnj.
  set (En := (inject_Z (BaseDelay (config r)) * Qpower (Multiplier (config r)) n)%Q) in *.
  set (Em := (inject_Z (BaseDelay (config r)) * Qpower (Multiplier (config r)) m)%Q) in *.
  set (X := inject_Z (MaxDelay (config r))) in *.
  split.
  - destruct (Qlt_bool X En) eqn:Cn, (Qlt_bool X Em) eqn:Cm; bool_to_prop;
      apply Qtrunc_le_compat; lra.
  - intros Hsat. destruct (Qlt_bool X Em) eqn:Cm; bool_to_prop.
    + apply Qtrunc_inject_Z.
    + assert (E : (Em == X)%Q) by lra. rewrite (Qtrunc_comp _ _ E). apply Qtrunc_inject_Z.
Qed.

Lemma X2_delay_monotone_witness :
  calculateDelay (NewRetryer (Examples.growth_config 3 None)) 1 0
    <= calculateDelay (NewRetryer (Examples.growth_config 3 None)) 4 0.
Proof.
  apply (X2_delay_monotone (Examples.growth_config 3 None) 1 4 0 0);
    [reflexivity | vm_compute; discriminate | lia].
Defined.

(** ** The retry loop, in general *)

Import Scenario.

Lemma backoffs_app (a b : list Event) : backoffs (a ++ b) = backoffs a ++ backoffs b.
Proof. unfold backoffs. apply flat_map_app. Qed.

Section DoMore.

Context {Env : Type}.
Variable o : Oracle.
Implicit Types (x : Exec Env) (ctx : Context) (r : Retryer) (fn : @Op Env).

(** When [select] takes the context's case, the context is done. *)
Lemma select_ctx_done ctx pick d x :
  fst (select_done_or_after ctx pick d x) = CtxDone ->
  ctx_Done ctx (clock (world (snd (select_done_or_after ctx pick d x)))) = true.
Proof.
  unfold select_done_or_after.
  destruct (ctx_Done ctx (clock (world x))) eqn:Hd.
  - destruct (d <=? 0), pick; cbn; intros; try discriminate; exact Hd.
  - destruct (d <=? 0); [discriminate|].
    unfold ctx_Done in *. destruct (done_at ctx) as [t|]; [|discriminate].
    destruct (t <? clock (world x) + d) eqn:E1; cbn.
    + intros _. apply Z.leb_refl.
    + destruct (clock (world x) + d <? t) eqn:E2; [discriminate|].
      destruct pick; [|discriminate]. cbn. intros _.
      apply Z.ltb_ge in E1, E2. apply Z.leb_le. lia.
Qed.

(** [select] never turns the clock back. *)
Lemma select_clock ctx pick d x :
  clock (world x) <= clock (world (snd (select_done_or_after ctx pick d x))).
Proof.
  unfold select_done_or_after.
  destruct (ctx_Done ctx (clock (world x))) eqn:Hd.
  - destruct (d <=? 0), pick; cbn; lia.
  - destruct (d <=? 0) eqn:Ed; [cbn; lia|]. apply Z.leb_gt in Ed.
    unfold ctx_Done in Hd. destruct (done_at ctx) as [t|]; [|cbn; lia].
    apply Z.leb_gt in Hd.
    destruct (t <? clock (world x) + d); [cbn; lia|].
    destruct (clock (world x) + d <? t), pick; cbn; lia.
Qed.

(** What a run of the loop of [Do] can be, from any attempt on. *)
Lemma Do_loop_sound r ctx fn (fuel : nat) :
  0 <= MaxDelay (config r) ->
  forall attempt lastErr x,
    0 <= attempt <= MaxRetries (config r) ->
    (Z.to_nat (MaxRetries (config r) - attempt + 1) <= fuel)%nat ->
    exists res x' tr last,
      Do_loop o r ctx fn fuel attempt lastErr x = Some (res, x') /\
      trace x' = trace x ++ tr /\
      (1 <= calls tr <= Z.to_nat (MaxRetries (config r) - attempt + 1))%nat /\
      (length (backoffs tr) <= Z.to_nat (MaxRetries (config r) - attempt))%nat /\
      Forall (fun d => d <= MaxDelay (config r)) (backoffs tr) /\
      last_call tr = Some last /\
      (res = last \/
       (last <> None /\ res = Some (done_err ctx) /\
        ctx_Done ctx (clock (world x')) = true)).
Proof.
  intros Hx. induction fuel as [|fuel IH]; intros attempt lastErr x Hrange Hfuel; [lia|].
  cbn [Do_loop]. destruct (MaxRetries (config r) <? attempt) eqn:E; [apply Z.ltb_lt in E; lia|].
  rewrite invoke_eq. set (x1 := {| world := _; trace := _ |}).
  destruct (fst (fn (world x))) as [err|] eqn:Hres.
  2:{ exists None, x1, [EvCall None], None. repeat split; cbn; try lia; auto. }
  destruct (gives_up r err).
  { exists (Some err), x1, [EvCall (Some err)], (Some err). repeat split; cbn; try lia; auto. }
  destruct (attempt =? MaxRetries (config r)) eqn:Hlast.
  { exists (Some err), x1, [EvCall (Some err)], (Some err). repeat split; cbn; try lia; auto. }
  apply Z.eqb_neq in Hlast.
  set (d := calculateDelay r attempt (rnd o attempt)).
  assert (Hd : d <= MaxDelay (config r)) by (apply calculateDelay_le_MaxDelay; exact Hx).
  pose proof (select_trace ctx (pick_retry o attempt) d (log (EvBackoff d) x1)) as [Htr _].
  pose proof (select_ctx_done ctx (pick_retry o attempt) d (log (EvBackoff d) x1)) as Hdone.
  destruct (select_done_or_after ctx (pick_retry o attempt) d (log (EvBackoff d) x1))
    as [[|] x2]; cbn [fst snd] in Htr, Hdone.
  - exists (ctx_Err ctx (clock (world x2))), x2, [EvCall (Some err); EvBackoff d], (Some err).
    split; [reflexivity|]. split.
    { rewrite Htr. cbn. rewrite <- app_assoc. reflexivity. }
    split; [cbn; lia|]. split; [cbn; lia|]. split; [repeat constructor; exact Hd|].
    split; [reflexivity|]. right. unfold ctx_Err. rewrite (Hdone eq_refl).
    repeat split. discriminate.
  - destruct (IH (attempt + 1) (Some err) x2)
      as (res & x' & tr & last & Hrun & Htr' & Hcalls & Hlen & Hall & Hlc & Hres');
      [lia | lia |].
    exists res, x', ([EvCall (Some err); EvBackoff d] ++ tr), last.
    split; [exact Hrun|]. split.
    { rewrite Htr', Htr. cbn. rewrite <- !app_assoc. reflexivity. }
    split; [rewrite calls_app; cbn [calls is_call]; lia|].
    split; [rewrite backoffs_app, length_app;
            change (backoffs [EvCall (Some err); EvBackoff d]) with [d]; cbn [length]; lia|].
    split; [rewrite backoffs_app; apply Forall_app; split; [repeat constructor; exact Hd | exact Hall]|].
    split; [apply last_call_app; exact Hlc | exact Hres'].
Qed.

(** X3.  Whatever the operation, the context and the random source, [Do] on
    a retryer built by [NewRetryer] returns after at least one and at most
    [MaxRetries + 1] invocations and at most [MaxRetries] sleeps, none
    longer than [MaxDelay]; what it returns is what the last invocation
    returned, unless that was an error and the context was done during the
    sleep that followed, in which case it is the context's error.  In
    particular it returns nil only when the last invocation succeeded. *)
Theorem X3_Do_bounds (c : RetryConfig) ctx fn x :
  let r := NewRetryer c in
  exists res x' tr last,
    Do o r ctx fn x = Some (res, x') /\
    trace x' = trace x ++ tr /\
    (1 <= calls tr <= Z.to_nat (MaxRetries (config r) + 1))%nat /\
    (length (backoffs tr) <= Z.to_nat (MaxRetries (config r)))%nat /\
    Forall (fun d => d <= MaxDelay (config r)) (backoffs tr) /\
    last_call tr = Some last /\
    (res = last \/
     (last <> None /\ res = Some (done_err ctx) /\
      ctx_Done ctx (clock (world x')) = true)).
Proof.
  intros r. destruct (NewRetryer_normal c) as (Hm & _ & Hx & _). fold r in Hm, Hx.
  destruct (Do_loop_sound r ctx fn (Z.to_nat (MaxRetries (config r) + 1)) ltac:(lia)
              0 None x ltac:(lia) ltac:(lia))
    as (res & x' & tr & last & H).
  exists res, x', tr, last.
  replace (MaxRetries (config r) - 0 + 1) with (MaxRetries (config r) + 1) in H by lia.
  replace (MaxRetries (config r) - 0) with (MaxRetries (config r)) in H by lia.
  exact H.
Qed.

End DoMore.

Section DoScenarios.

Variable o : Oracle.

(** The scripted operation fails [length errs] times, then succeeds. *)
Lemma Do_loop_scripted (r : Retryer) (ctx : Context) (errs : list error) :
  done_at ctx = None ->
  Forall (fun e => gives_up r e = false) errs ->
  forall (fuel : nat) attempt lastErr (x : Exec (list (option error))) rest,
    0 <= attempt ->
    attempt + Z.of_nat (length errs) <= MaxRetries (config r) ->
    (length errs < fuel)%nat ->
    env (world x) = map Some errs ++ None :: rest ->
    exists x' tr,
      Do_loop o r ctx scripted fuel attempt lastErr x = Some (None, x') /\
      trace x' = trace x ++ tr /\
      calls tr = S (length errs) /\
      length (backoffs tr) = length errs /\
      env (world x') = rest.
Proof.
  intros Hctx Hall. induction Hall as [|e errs He _ IH];
    intros fuel attempt lastErr x rest H0 Hmax Hfuel Henv.
  - destruct fuel as [|fuel]; [cbn in Hfuel; lia|]. cbn [Do_loop].
    destruct (MaxRetries (config r) <? attempt) eqn:E; [apply Z.ltb_lt in E; cbn in Hmax; lia|].
    assert (Hs : scripted (world x)
                 = (None, {| clock := clock (world x); env := rest |})).
    { unfold scripted. rewrite Henv. reflexivity. }
    rewrite invoke_eq, Hs. cbn [fst snd].
    eexists _, [EvCall None]. repeat split.
  - destruct fuel as [|fuel]; [cbn in Hfuel; lia|]. cbn [Do_loop].
    cbn [length] in Hmax, Hfuel.
    destruct (MaxRetries (config r) <? attempt) eqn:E; [apply Z.ltb_lt in E; lia|].
    assert (Hs : scripted (world x)
                 = (Some e, {| clock := clock (world x);
                               env := map Some errs ++ None :: rest |})).
    { unfold scripted. rewrite Henv. reflexivity. }
    rewrite invoke_eq, Hs. cbn [fst snd].
    rewrite He.
    destruct (attempt =? MaxRetries (config r)) eqn:Hlast; [apply Z.eqb_eq in Hlast; lia|].
    set (d := calculateDelay r attempt (rnd o attempt)).
    set (x1 := log (EvBackoff d) _).
    pose proof (select_trace ctx (pick_retry o attempt) d x1) as [Htr Henv1].
    pose proof (select_never_done ctx (pick_retry o attempt) d x1 Hctx) as Hsel.
    destruct (select_done_or_after ctx (pick_retry o attempt) d x1) as [sel x2].
    cbn [fst snd] in Htr, Henv1, Hsel. subst sel.
    destruct (IH fuel (attempt + 1) (Some e) x2 rest) as (x' & tr & Hrun & Htr' & Hc & Hb & Hrest);
      [lia | lia | lia | rewrite Henv1; reflexivity |].
    exists x', ([EvCall (Some e); EvBackoff d] ++ tr).
    split; [exact Hrun|]. split; [|split; [|split]].
    + rewrite Htr', Htr. subst x1. cbn. rewrite <- !app_assoc. reflexivity.
    + rewrite calls_app, Hc. reflexivity.
    + rewrite backoffs_app, length_app, Hb. reflexivity.
    + exact Hrest.
Qed.

(** X4.  Retry until success: when the operation fails [k] times with
    errors the policy retries, [k <= MaxRetries], and then succeeds, [Do]
    (with a context that is never done) returns nil after exactly [k + 1]
    invocations and [k] sleeps, and invokes the operation no further. *)
Theorem X4_Do_retries_until_success (c : RetryConfig) (ctx : Context)
    (errs : list error) (rest : list (option error))
    (x : Exec (list (option error))) :
  let r := NewRetryer c in
  done_at ctx = None ->
  Forall (fun e => gives_up r e = false) errs ->
  Z.of_nat (length errs) <= MaxRetries (config r) ->
  env (world x) = map Some errs ++ None :: rest ->
  exists x' tr,
    Do o r ctx scripted x = Some (None, x') /\
    trace x' = trace x ++ tr /\
    calls tr = S (length errs) /\
    length (backoffs tr) = length errs /\
    env (world x') = rest.
Proof.
  intros r Hctx Hall Hlen Henv. unfold Do.
  apply (Do_loop_scripted r ctx errs Hctx Hall); [lia | lia | lia | exact Henv].
Qed.

End DoScenarios.

Section DoCancel.

Context {Env : Type}.
Variable o : Oracle.
Implicit Types (x : Exec Env) (ctx : Context) (fn : @Op Env).

(** X5.  Cancellation during the backoff sleep: when the first invocation
    fails with a retryable error and the context becomes done strictly
    inside the sleep that follows, [Do] wakes at that instant and returns
    the context's error, not the operation's, without a second
    invocation. *)
Theorem X5_Do_cancelled_while_sleeping (c : RetryConfig) ctx fn x
    (e : error) (t : Time) :
  let r := NewRetryer c in
  let delay := calculateDelay r 0 (rnd o 0) in
  let x1 := {| world := snd (fn (world x));
               trace := trace x ++ [EvCall (Some e)] |} in
  fst (fn (world x)) = Some e ->
  gives_up r e = false ->
  done_at ctx = Some t ->
  clock (snd (fn (world x))) < t ->
  t < clock (snd (fn (world x))) + delay ->
  Do o r ctx fn x =
    Some (Some (done_err ctx), set_clock t (log (EvBackoff delay) x1)).
Proof.
  intros r delay x1 Hres Hretry Hdone Hafter Hbefore.
  destruct (NewRetryer_normal c) as (Hm & _). fold r in Hm.
  rewrite Do_first_attempt by lia. cbn zeta. rewrite Hres, Hretry.
  destruct (0 =? MaxRetries (config r)) eqn:E0; [apply Z.eqb_eq in E0; lia|].
  fold delay. fold x1.
  unfold select_done_or_after, ctx_Done. rewrite Hdone. cbn [log world clock].
  change (clock (world x1)) with (clock (snd (fn (world x)))).
  destruct (t <=? clock (snd (fn (world x)))) eqn:E1; [apply Z.leb_le in E1; lia|].
  destruct (delay <=? 0) eqn:E2; [apply Z.leb_le in E2; lia|].
  destruct (t <? clock (snd (fn (world x))) + delay) eqn:E3; [|apply Z.ltb_ge in E3; lia].
  unfold ctx_Err, ctx_Done. rewrite Hdone. cbn [set_clock world clock log trace env].
  rewrite Z.leb_refl. reflexivity.
Qed.

(** [DoWithResult] runs the loop of [Do] on the same operation with its
    result forgotten. *)
Lemma DoWithResult_loop_as_Do {T : Type} (r : Retryer) ctx
    (fn : @OpWithResult Env T) (fuel : nat) :
  forall attempt (result : T) lastErr x,
    option_map (fun out : (T * option error) * Exec Env => (snd (fst out), snd out))
      (DoWithResult_loop o r ctx fn fuel attempt result lastErr x)
    = Do_loop o r ctx (forget_result fn) fuel attempt lastErr x.
Proof.
  induction fuel as [|fuel IH]; intros attempt result lastErr x.
  - cbn. destruct (MaxRetries (config r) <? attempt); reflexivity.
  - cbn [DoWithResult_loop Do_loop].
    destruct (MaxRetries (config r) <? attempt); [reflexivity|].
    rewrite invokeWithResult_eq, invoke_eq.
    change (forget_result fn (world x))
      with (snd (fst (fn (world x))), snd (fn (world x))).
    cbn [fst snd].
    destruct (fn (world x)) as [[value [err|]] w]; cbn [fst snd option_map]; [|reflexivity].
    destruct (gives_up r err); [reflexivity|].
    destruct (attempt =? MaxRetries (config r)); [reflexivity|].
    destruct (select_done_or_after ctx (pick_retry o attempt)
                (calculateDelay r attempt (rnd o attempt)) _) as [[|] x2];
      [reflexivity | apply IH].
Qed.

(** X6.  [DoWithResult] and [Do] are the same loop: on an operation that
    returns a value, [DoWithResult] ends with the error, the world and the
    trace that [Do] ends with on the operation with its value dropped; and
    it always returns. *)
Theorem X6_DoWithResult_as_Do {T : Type} (zero : T) (r : Retryer) ctx
    (fn : @OpWithResult Env T) x :
  option_map (fun out : (T * option error) * Exec Env => (snd (fst out), snd out))
    (DoWithResult o zero r ctx fn x)
  = Do o r ctx (forget_result fn) x
  /\ exists res x', DoWithResult o zero r ctx fn x = Some (res, x').
Proof.
  split; [apply DoWithResult_loop_as_Do|].
  destruct (DoWithResult_returns o zero r ctx fn x) as (res & x' & _ & H & _).
  eauto.
Qed.

End DoCancel.

Lemma X4_Do_retries_until_success_witness :
  exists x' tr,
    Do Examples.oracle0 (NewRetryer Examples.client_config) Background scripted
       MoreExamples.scripted_start = Some (None, x') /\
    trace x' = trace MoreExamples.scripted_start ++ tr /\
    calls tr = 3%nat /\
    length (backoffs tr) = 2%nat /\
    env (world x') = [Some ErrNotFound].
Proof.
  apply (X4_Do_retries_until_success Examples.oracle0 Examples.client_config Background
           [ErrTimeout; ErrRateLimited] [Some ErrNotFound]).
  - reflexivity.
  - constructor; [reflexivity|]. constructor; [reflexivity|]. constructor.
  - vm_compute. discriminate.
  - reflexivity.
Defined.

Lemma X5_Do_cancelled_while_sleeping_witness :
  Do Examples.oracle0 (NewRetryer Examples.client_config)
     MoreExamples.deadline_300ms Examples.times_out Examples.start
  = Some (Some ContextDeadlineExceeded,
          {| world := {| clock := 300 * Millisecond; env := tt |};
             trace := [EvCall (Some ErrTimeout); EvBackoff (800 * Millisecond)] |}).
Proof.
  apply (X5_Do_cancelled_while_sleeping Examples.oracle0 Examples.client_config
           MoreExamples.deadline_300ms Examples.times_out Examples.start ErrTimeout (300 * Millisecond));
    [reflexivity | reflexivity | reflexivity | vm_compute; reflexivity
    | vm_compute; reflexivity].
Defined.

(** ** The token bucket over time *)

Import Ratelimit.

Lemma Seconds_plus (a b : Z) : (Seconds (a + b) == Seconds a + Seconds b)%Q.
Proof. unfold Seconds, Qdiv. rewrite inject_Z_plus. ring. Qed.

(** The tokens after a refill, as a minimum. *)
Lemma refillTokens_min (r : RateLimiter) (now : Time) :
  (tokens (refillTokens r now)
   == Qmin (bucketSize r) (tokens r + Seconds (now - lastUpdate r) * rate r))%Q.
Proof.
  unfold refillTokens. cbn [tokens].
  destruct (Qlt_bool (bucketSize r) (tokens r + Seconds (now - lastUpdate r) * rate r))
    eqn:E; bool_to_prop; symmetry; [apply Q.min_l | apply Q.min_r]; lra.
Qed.

(** X7.  The tokens a caller sees do not depend on how often the bucket is
    polled: reading [Available] at [t1] and again at [t2] gives at [t2] what
    a single reading at [t2] gives. *)
Theorem X7_Available_polling (r : RateLimiter) (t1 t2 : Time) :
  (0 <= rate r)%Q -> (tokens r <= bucketSize r)%Q ->
  lastUpdate r <= t1 -> t1 <= t2 ->
  (fst (Available (snd (Available r t1)) t2) == fst (Available r t2))%Q.
Proof.
  intros Hrate Hcap H1 H2.
  change (tokens (refillTokens (refillTokens r t1) t2) == tokens (refillTokens r t2))%Q.
  rewrite (refillTokens_min (refillTokens r t1) t2), (refillTokens_min r t2).
  change (bucketSize (refillTokens r t1)) with (bucketSize r).
  change (rate (refillTokens r t1)) with (rate r).
  change (lastUpdate (refillTokens r t1)) with t1.
  rewrite (refillTokens_min r t1).
  pose proof (Seconds_nonneg (t1 - lastUpdate r) ltac:(lia)) as Ha.
  pose proof (Seconds_nonneg (t2 - t1) ltac:(lia)) as Hb.
  assert (Hsum : (Seconds (t2 - lastUpdate r)
                  == Seconds (t1 - lastUpdate r) + Seconds (t2 - t1))%Q).
  { rewrite <- Seconds_plus. replace (t1 - lastUpdate r + (t2 - t1)) with (t2 - lastUpdate r) by lia.
    reflexivity. }
  rewrite Hsum.
  set (a := Seconds (t1 - lastUpdate r)) in *. set (b := Seconds (t2 - t1)) in *.
  pose proof (Qmult_le_0_compat _ _ Ha Hrate) as Har.
  pose proof (Qmult_le_0_compat _ _ Hb Hrate) as Hbr.
  assert (Hdist : ((a + b) * rate r == a * rate r + b * rate r)%Q) by ring.
  rewrite Hdist.
  set (ar := (a * rate r)%Q) in *. set (br := (b * rate r)%Q) in *.
  destruct (Qlt_le_dec (tokens r + ar) (bucketSize r)) as [Hlt | Hge].
  - rewrite (Q.min_r (bucketSize r) (tokens r + ar)) by lra.
    destruct (Qlt_le_dec (tokens r + ar + br) (bucketSize r)) as [Hlt2 | Hge2].
    + rewrite !Q.min_r by lra. ring.
    + rewrite !Q.min_l by lra. reflexivity.
  - rewrite (Q.min_l (bucketSize r) (tokens r + ar)) by lra.
    rewrite (Q.min_l (bucketSize r) (bucketSize r + br)) by lra.
    rewrite (Q.min_l (bucketSize r) (tokens r + (ar + br))) by lra.
    reflexivity.
Qed.

Lemma X7_Available_polling_witness :
  (fst (Available (snd (Available Examples.drained_limiter (100 * Millisecond)))
          (300 * Millisecond))
   == fst (Available Examples.drained_limiter (300 * Millisecond)))%Q.
Proof.
  apply X7_Available_polling; vm_compute; discriminate.
Defined.

(** X8.  The wait [timeUntilNextToken] computes is never negative, and a
    sleep strictly longer than it is enough: for a positive rate and a
    capacity of at least one token, [TryAcquire] succeeds at any instant
    more than [timeUntilNextToken] after the last update. *)
Theorem X8_timeUntilNextToken_suffices (r : RateLimiter) (d : Duration) :
  (0 < rate r)%Q -> (1 <= bucketSize r)%Q ->
  timeUntilNextToken r < d ->
  0 <= timeUntilNextToken r /\
  fst (TryAcquire r (lastUpdate r + d)) = true.
Proof.
  intros Hrate Hcap Hd.
  set (k := inject_Z Second).
  assert (Hk : (0 < k)%Q) by (unfold k, Second; reflexivity).
  assert (Hw : 0 <= timeUntilNextToken r /\
               ((1 - tokens r) <= Seconds d * rate r)%Q).
  { unfold timeUntilNextToken in *.
    destruct (Qle_bool 1 (tokens r)) eqn:E; bool_to_prop.
    - split; [lia|].
      pose proof (Seconds_nonneg d ltac:(lia)) as Hs.
      pose proof (Qmult_le_0_compat _ _ Hs (Qlt_le_weak _ _ Hrate)). lra.
    - fold k in Hd. set (q := ((1 - tokens r) / rate r * k)%Q) in *.
      assert (Hq0 : (0 <= q)%Q).
      { unfold q, Qdiv. apply Qmult_le_0_compat; [|lra].
        apply Qmult_le_0_compat; [lra|]. apply Qinv_le_0_compat. lra. }
      destruct (Qtrunc_nonneg q Hq0) as [Hfl Hge]. split; [exact Hge|].
      assert (HqD : (q < inject_Z d)%Q).
      { apply Qlt_le_trans with (inject_Z (Qfloor q + 1)); [apply Qlt_floor|].
        rewrite <- Zle_Qle. rewrite Hfl in Hd. lia. }
      assert (Hz : (0 < / k * rate r)%Q).
      { apply Qmult_lt_0_compat; [apply Qinv_lt_0_compat; exact Hk | exact Hrate]. }
      assert (Hmul : (q * (/ k * rate r) < inject_Z d * (/ k * rate r))%Q).
      { apply Qmult_lt_compat_r; assumption. }
      assert (Hqe : (q * (/ k * rate r) == 1 - tokens r)%Q).
      { unfold q. field. split; intros Hz0; [rewrite Hz0 in Hk | rewrite Hz0 in Hrate]; lra. }
      assert (Hse : (Seconds d * rate r == inject_Z d * (/ k * rate r))%Q).
      { unfold Seconds, Qdiv. fold k. ring. }
      rewrite Hse. lra. }
  destruct Hw as [H0 Henough]. split; [exact H0|].
  unfold TryAcquire.
  pose proof (refillTokens_min r (lastUpdate r + d)) as Hmin.
  replace (lastUpdate r + d - lastUpdate r) with d in Hmin by lia.
  assert (H1 : (1 <= tokens (refillTokens r (lastUpdate r + d)))%Q).
  { rewrite Hmin. apply Q.min_glb; lra. }
  apply Qle_bool_iff in H1. rewrite H1. reflexivity.
Qed.

Lemma X8_timeUntilNextToken_suffices_witness :
  0 <= timeUntilNextToken Examples.drained_limiter /\
  fst (TryAcquire Examples.drained_limiter
         (lastUpdate Examples.drained_limiter + (200 * Millisecond + 1))) = true.
Proof.
  apply (X8_timeUntilNextToken_suffices Examples.drained_limiter (200 * Millisecond + 1));
    vm_compute; first [reflexivity | discriminate].
Defined.

(** One [TryAcquire]: the token it grants and the tokens it leaves add up
    to the tokens after the refill, which are at most the tokens before
    plus the rate times the elapsed time. *)
Lemma TryAcquire_accounting (r : RateLimiter) (now : Time) :
  (0 <= rate r)%Q -> lastUpdate r <= now ->
  (inject_Z (Z.of_nat (if fst (TryAcquire r now) then 1 else 0))
     + tokens (snd (TryAcquire r now))
   <= tokens r + Seconds (now - lastUpdate r) * rate r)%Q.
Proof.
  intros Hrate Hnow.
  assert (Hre : (tokens (refillTokens r now)
                 <= tokens r + Seconds (now - lastUpdate r) * rate r)%Q).
  { rewrite refillTokens_min. apply Q.le_min_r. }
  unfold TryAcquire.
  destruct (Qle_bool 1 (tokens (refillTokens r now))); cbn [fst snd tokens];
    change (inject_Z (Z.of_nat 1)) with 1%Q; change (inject_Z (Z.of_nat 0)) with 0%Q; lra.
Qed.

Import Scenario.

(** Over a sequence of readings that do not run backwards: what was granted
    plus what is left is at most what there was plus the rate times the
    time that passed. *)
Lemma TryAcquire_all_accounting (times : list Time) :
  forall r : RateLimiter,
    (0 <= rate r)%Q -> bucket_ok r ->
    nondecreasing_from (lastUpdate r) times ->
    let out := TryAcquire_all times r in
    (inject_Z (Z.of_nat (fst out)) + tokens (snd out)
     <= tokens r + Seconds (last_reading (lastUpdate r) times - lastUpdate r) * rate r)%Q
    /\ bucket_ok (snd out)
    /\ lastUpdate (snd out) = last_reading (lastUpdate r) times.
Proof.
  induction times as [|t times IH]; intros r Hrate Hok Hmono.
  - cbn [TryAcquire_all last_reading fst snd]. rewrite Z.sub_diag.
    change (inject_Z (Z.of_nat 0)) with 0%Q.
    split; [|split; [exact Hok | reflexivity]].
    rewrite Seconds_zero. lra.
  - destruct Hmono as [Ht Hrest].
    pose proof (TryAcquire_accounting r t Hrate Ht) as Hacc.
    destruct (TryAcquire_ok r t Hrate Ht Hok) as (Hok1 & Hlast1 & Hrate1 & _).
    cbn [TryAcquire_all last_reading].
    destruct (TryAcquire r t) as [ok r1]. cbn [fst snd] in *.
    specialize (IH r1). rewrite Hlast1, Hrate1 in IH.
    destruct (IH Hrate Hok1 Hrest) as (Hsum & Hok' & Hlast').
    destruct (TryAcquire_all times r1) as [n r2]. cbn [fst snd] in *.
    split; [|split; [exact Hok' | exact Hlast']].
    assert (Hmono_last : t <= last_reading t times).
    { clear - Hrest. revert t Hrest. induction times as [|t' times IHt]; intros t H; cbn; [lia|].
      destruct H as [H1 H2]. specialize (IHt t' H2). lia. }
    assert (Hsec : (Seconds (last_reading t times - lastUpdate r)
                    == Seconds (t - lastUpdate r) + Seconds (last_reading t times - t))%Q).
    { rewrite <- Seconds_plus.
      replace (t - lastUpdate r + (last_reading t times - t))
        with (last_reading t times - lastUpdate r) by lia. reflexivity. }
    rewrite Hsec.
    assert (Hn : (inject_Z (Z.of_nat (if ok then S n else n))
                  == inject_Z (Z.of_nat (if ok then 1 else 0)) + inject_Z (Z.of_nat n))%Q).
    { destruct ok.
      - rewrite Nat2Z.inj_succ. unfold Z.succ. rewrite inject_Z_plus.
        change (inject_Z (Z.of_nat 1)) with 1%Q. change (inject_Z 1) with 1%Q. ring.
      - change (inject_Z (Z.of_nat 0)) with 0%Q. ring. }
    rewrite Hn.
    set (s1 := Seconds (t - lastUpdate r)) in *.
    set (s2 := Seconds (last_reading t times - t)) in *.
    assert (Hd : ((s1 + s2) * rate r == s1 * rate r + s2 * rate r)%Q) by ring.
    rewrite Hd. lra.
Qed.

(** X9.  The admission rate: over any sequence of [TryAcquire] calls whose
    clock readings do not run backwards, the number granted is at most the
    capacity plus the rate times the time between the limiter's last update
    and the last call. *)
Theorem X9_admission_rate (r : RateLimiter) (times : list Time) :
  (0 <= rate r)%Q -> bucket_ok r ->
  nondecreasing_from (lastUpdate r) times ->
  (inject_Z (Z.of_nat (fst (TryAcquire_all times r)))
   <= bucketSize r
      + Seconds (last_reading (lastUpdate r) times - lastUpdate r) * rate r)%Q.
Proof.
  intros Hrate Hok Hmono.
  destruct (TryAcquire_all_accounting times r Hrate Hok Hmono) as (Hsum & [H0 _] & _).
  destruct Hok as [_ Hcap]. lra.
Qed.

Lemma X9_admission_rate_witness :
  (inject_Z (Z.of_nat (fst (TryAcquire_all [0%Z; (100 * Millisecond)%Z; (400 * Millisecond)%Z]
                              Examples.fresh_limiter)))
   <= bucketSize Examples.fresh_limiter
      + Seconds (last_reading (lastUpdate Examples.fresh_limiter)
                   [0%Z; (100 * Millisecond)%Z; (400 * Millisecond)%Z]
                 - lastUpdate Examples.fresh_limiter)
        * rate Examples.fresh_limiter)%Q.
Proof.
  apply X9_admission_rate.
  - vm_compute. discriminate.
  - split; vm_compute; discriminate.
  - cbn. unfold Millisecond. lia.
Defined.

Section WaitMore.

Context {Env : Type}.
Variable o : Oracle.
Implicit Types (x : Exec Env) (ctx : Context) (r : RateLimiter).

(** What a return of the loop of [Wait] tells. *)
Lemma Wait_loop_sound ctx (fuel : nat) :
  forall (i : nat) r x res r' x',
    Wait_loop o ctx fuel i r x = Some (res, r', x') ->
    clock (world x) <= clock (world x') /\
    (res = None -> exists tl, trace x' = trace x ++ tl ++ [EvAcquire true]) /\
    (forall e, res = Some e ->
       e = done_err ctx /\ ctx_Done ctx (clock (world x')) = true) /\
    ((0 <= rate r)%Q -> lastUpdate r <= clock (world x) -> bucket_ok r ->
     bucket_ok r' /\ lastUpdate r' <= clock (world x') /\
     rate r' = rate r /\ bucketSize r' = bucketSize r).
Proof.
  induction fuel as [|fuel IH]; intros i r x res r' x' H; [discriminate|].
  cbn [Wait_loop] in H.
  pose proof (fun Hr Hl Hok => TryAcquire_ok r (clock (world x)) Hr Hl Hok) as Hstep.
  destruct (TryAcquire r (clock (world x))) as [[|] r1]; cbn [fst snd] in Hstep.
  - injection H as <- <- <-. cbn [log world clock].
    split; [lia|]. split; [intros _; exists []; reflexivity|].
    split; [intros e; discriminate|].
    intros Hr Hl Hok. destruct (Hstep Hr Hl Hok) as (Hok1 & Hl1 & Hr1 & Hb1 & _).
    repeat split; try apply Hok1; try assumption. lia.
  - set (d := timeUntilNextToken r1) in *.
    set (x1 := log (EvLimiterWait d) (log (EvAcquire false) x)) in *.
    pose proof (select_trace ctx (pick_limit o i) d x1) as [Htr _].
    pose proof (select_ctx_done ctx (pick_limit o i) d x1) as Hdone.
    pose proof (select_clock ctx (pick_limit o i) d x1) as Hclk.
    destruct (select_done_or_after ctx (pick_limit o i) d x1) as [[|] x2];
      cbn [fst snd] in Htr, Hdone, Hclk.
    + injection H as <- <- <-.
      split; [exact Hclk|]. unfold ctx_Err. rewrite (Hdone eq_refl).
      split; [discriminate|]. split; [intros e [= <-]; split; reflexivity|].
      intros Hr Hl Hok. destruct (Hstep Hr Hl Hok) as (Hok1 & Hl1 & Hr1 & Hb1 & _).
      repeat split; try apply Hok1; try assumption.
      change (clock (world x1)) with (clock (world x)) in Hclk. lia.
    + destruct (IH _ _ _ _ _ _ H) as (Hc & Hnil & Herr & Hinv).
      change (clock (world x1)) with (clock (world x)) in Hclk.
      split; [lia|]. split; [|split; [exact Herr|]].
      * intros Hres. destruct (Hnil Hres) as (tl & Htl).
        exists ([EvAcquire false; EvLimiterWait d] ++ tl).
        rewrite Htl, Htr. subst x1. cbn. rewrite <- !app_assoc. reflexivity.
      * intros Hr Hl Hok. destruct (Hstep Hr Hl Hok) as (Hok1 & Hl1 & Hr1 & Hb1 & _).
        destruct Hinv as (Hok' & Hl' & Hr' & Hb'); [rewrite Hr1; exact Hr | lia | exact Hok1 |].
        repeat split; try apply Hok'; try assumption; congruence.
Qed.

(** X10.  [Wait] returns nil only after a granted [TryAcquire], and returns
    an error only when the context is done, that error being the context's:
    with a context that is never done it never returns an error.  It never
    turns the clock back, it keeps the invariant of the bucket, and when a
    token is available at the call it returns nil at once, whatever the
    context. *)
Theorem X10_Wait_sound ctx (fuel : nat) r x :
  (forall res r' x',
     Wait o ctx fuel r x = Some (res, r', x') ->
     clock (world x) <= clock (world x') /\
     (res = None -> exists tl, trace x' = trace x ++ tl ++ [EvAcquire true]) /\
     (forall e, res = Some e ->
        e = done_err ctx /\ ctx_Done ctx (clock (world x')) = true) /\
     (done_at ctx = None -> res = None) /\
     ((0 <= rate r)%Q -> lastUpdate r <= clock (world x) -> bucket_ok r ->
      bucket_ok r' /\ lastUpdate r' <= clock (world x')))
  /\
  (fuel <> O -> fst (TryAcquire r (clock (world x))) = true ->
   Wait o ctx fuel r x
     = Some (None, snd (TryAcquire r (clock (world x))), log (EvAcquire true) x)).
Proof.
  split.
  - intros res r' x' H. unfold Wait in H.
    destruct (Wait_loop_sound ctx fuel _ _ _ _ _ _ H) as (Hc & Hnil & Herr & Hinv).
    split; [exact Hc|]. split; [exact Hnil|]. split; [exact Herr|]. split.
    + intros Hnever. destruct res as [e|]; [|reflexivity].
      destruct (Herr e eq_refl) as [_ Hd]. unfold ctx_Done in Hd. rewrite Hnever in Hd.
      discriminate.
    + intros Hr Hl Hok. destruct (Hinv Hr Hl Hok) as (H1 & H2 & _). split; assumption.
  - intros Hfuel Hacq. destruct fuel as [|fuel]; [congruence|].
    unfold Wait. cbn [Wait_loop].
    destruct (TryAcquire r (clock (world x))) as [ok r1]. cbn [fst snd] in *.
    subst ok. reflexivity.
Qed.

End WaitMore.

Lemma X10_Wait_sound_witness :
  Wait Examples.oracle0 Background 1 Examples.fresh_limiter Examples.start
  = Some (None, snd (TryAcquire Examples.fresh_limiter 0),
          log (EvAcquire true) Examples.start)
  /\ bucket_ok (snd (TryAcquire Examples.fresh_limiter 0)).
Proof.
  destruct (X10_Wait_sound Examples.oracle0 Background 1 Examples.fresh_limiter
              Examples.start) as [Hsafe Hnow].
  assert (Hrun : Wait Examples.oracle0 Background 1 Examples.fresh_limiter Examples.start
                 = Some (None, snd (TryAcquire Examples.fresh_limiter 0),
                         log (EvAcquire true) Examples.start)).
  { apply Hnow; [discriminate | reflexivity]. }
  split; [exact Hrun|].
  destruct (Hsafe _ _ _ Hrun) as (_ & _ & _ & _ & Hinv).
  apply Hinv; [vm_compute; discriminate | vm_compute; discriminate
              | split; vm_compute; discriminate].
Defined.

(** ** The cache as a store *)

Import Cache.

(** What [Get] returns depends on the entry of its key only. *)
Lemma Get_result_lookup (c1 c2 : Cache) (key : string) (t : Time) :
  entries c1 !! key = entries c2 !! key ->
  fst (Get c1 key t) = fst (Get c2 key t).
Proof.
  intros H. unfold Get. rewrite H.
  destruct (entries c2 !! key) as [e|]; [|reflexivity].
  destruct (IsExpired e t); reflexivity.
Qed.

(** X11.  Keys are independent: storing under a key, deleting it, or
    reading it (which may evict it) never changes what a read of another
    key returns. *)
Theorem X11_cache_frame (c : Cache) (key other : string) (v : any)
    (ttl : Duration) (t t' : Time) :
  key <> other ->
  fst (Get (SetWithTTL c key v ttl t) other t') = fst (Get c other t') /\
  fst (Get (Set_ c key v t) other t') = fst (Get c other t') /\
  fst (Get (Delete c key) other t') = fst (Get c other t') /\
  fst (Get (snd (Get c key t)) other t') = fst (Get c other t').
Proof.
  intros Hne. repeat split; apply Get_result_lookup.
  - cbn. apply lookup_insert_ne. exact Hne.
  - cbn. apply lookup_insert_ne. exact Hne.
  - cbn. apply lookup_delete_ne. exact Hne.
  - unfold Get. destruct (entries c !! key) as [e|]; [|reflexivity].
    destruct (IsExpired e t); [|reflexivity]. cbn. apply lookup_delete_ne. exact Hne.
Qed.

Lemma X11_cache_frame_witness :
  fst (Get (SetWithTTL Examples.cache_k "other" (VInt 1) 0 0) "k" 0)
  = fst (Get Examples.cache_k "k" 0).
Proof.
  apply (X11_cache_frame Examples.cache_k "other" "k" (VInt 1) 0 0 0). discriminate.
Defined.

(** X12.  [SetWithTTL] overwrites: the last write to a key wins, with its
    own expiration, and the earlier write leaves no trace; [Size] grows by
    one for a key that had no entry and stays as it is otherwise, whether
    the entry replaced had expired or not. *)
Theorem X12_Set_overwrites (c : Cache) (key : string) (v1 v2 : any)
    (ttl1 ttl2 : Duration) (t1 t2 : Time) :
  SetWithTTL (SetWithTTL c key v1 ttl1 t1) key v2 ttl2 t2 = SetWithTTL c key v2 ttl2 t2 /\
  entries (SetWithTTL c key v2 ttl2 t2) !! key
    = Some {| Value := v2; Expiration := t2 + ttl2 |} /\
  Size (SetWithTTL c key v2 ttl2 t2)
    = match entries c !! key with Some _ => Size c | None => S (Size c) end.
Proof.
  split; [|split].
  - unfold SetWithTTL, with_entries. cbn. rewrite insert_insert_eq. reflexivity.
  - cbn. apply lookup_insert_eq.
  - unfold Size, SetWithTTL. cbn.
    destruct (entries c !! key) as [e|] eqn:H.
    + apply (map_size_insert_Some key _ (entries c)). eauto.
    + apply map_size_insert_None. exact H.
Qed.

(** X13.  [Keys] lists each key that has an entry exactly once, expired
    entries included, and as many keys as [Size] counts. *)
Theorem X13_Keys (c : Cache) :
  NoDup (Keys c) /\
  length (Keys c) = Size c /\
  (forall key, key ∈ Keys c <-> is_Some (entries c !! key)).
Proof.
  unfold Keys, Size. split; [apply NoDup_fst_map_to_list|]. split.
  - rewrite length_fmap. apply length_map_to_list.
  - intros key. rewrite list_elem_of_fmap. split.
    + intros ([k e] & -> & Hin). apply elem_of_map_to_list in Hin. cbn. eauto.
    + intros [e He]. exists (key, e). split; [reflexivity|].
      apply elem_of_map_to_list. exact He.
Qed.

(** X14.  [Delete] removes the entry of its key and nothing else, is
    idempotent, and changes nothing when the key has no entry; [Clear]
    leaves a cache of size zero with no keys, in which every read misses,
    and keeps the default TTL. *)
Theorem X14_Delete_Clear (c : Cache) (key : string) (t : Time) :
  Get (Delete c key) key t = ((VNil, false), Delete c key) /\
  Delete (Delete c key) key = Delete c key /\
  (entries c !! key = None -> Delete c key = c) /\
  Size (Clear c) = O /\
  Keys (Clear c) = [] /\
  Get (Clear c) key t = ((VNil, false), Clear c) /\
  defaultTTL (Clear c) = defaultTTL c.
Proof.
  split; [apply Get_absent; apply lookup_delete_eq|].
  split; [unfold Delete, with_entries; cbn; rewrite delete_delete_eq; reflexivity|].
  split.
  { intros H. unfold Delete, with_entries. rewrite (delete_id _ _ H).
    destruct c; reflexivity. }
  split; [apply map_size_empty|].
  split; [unfold Keys; cbn; rewrite map_to_list_empty; reflexivity|].
  split; [apply Get_absent; apply lookup_empty | reflexivity].
Qed.

Lemma X14_Delete_Clear_witness :
  Delete Examples.cache0 "k" = Examples.cache0.
Proof.
  apply (X14_Delete_Clear Examples.cache0 "k" 0). reflexivity.
Defined.

(** X15.  The sweep is invisible to reads: after [cleanup] at [now], every
    read at [now] or later returns what it would have returned without the
    sweep; the sweep never adds an entry, so [Size] does not grow; a read
    at [now] right after it evicts nothing; and sweeping twice at the same
    instant is sweeping once. *)
Theorem X15_cleanup_transparent (c : Cache) (now : Time) :
  (forall key t, now <= t ->
     fst (Get (cleanup c now) key t) = fst (Get c key t)) /\
  (Size (cleanup c now) <= Size c)%nat /\
  (forall key, snd (Get (cleanup c now) key now) = cleanup c now) /\
  cleanup (cleanup c now) now = cleanup c now.
Proof.
  split; [|split; [|split]].
  - intros key t Ht. unfold Get at 1 2.
    destruct (entries (cleanup c now) !! key) as [e|] eqn:Hc.
    + apply cleanup_lookup in Hc as [Hc _]. rewrite Hc.
      destruct (IsExpired e t); reflexivity.
    + destruct (entries c !! key) as [e|] eqn:H; [|reflexivity].
      unfold IsExpired. destruct (Expiration e <? t) eqn:E; [reflexivity|].
      apply Z.ltb_ge in E.
      assert (Hin : entries (cleanup c now) !! key = Some e).
      { apply cleanup_lookup. split; [exact H | lia]. }
      congruence.
  - unfold Size, cleanup. cbn. apply map_subseteq_size, map_filter_subseteq.
  - intros key. unfold Get.
    destruct (entries (cleanup c now) !! key) as [e|] eqn:Hc; [|reflexivity].
    apply cleanup_lookup in Hc as [_ Hfresh]. unfold IsExpired.
    destruct (Expiration e <? now) eqn:E; [apply Z.ltb_lt in E; lia | reflexivity].
  - unfold cleanup, with_entries. cbn. f_equal.
    apply map_eq. intros key. apply option_eq. intros e.
    rewrite !map_lookup_filter_Some. tauto.
Qed.

Lemma X15_cleanup_transparent_witness :
  fst (Get (cleanup Examples.cache_k (60 * Millisecond)) "k" (70 * Millisecond))
  = fst (Get Examples.cache_k "k" (70 * Millisecond)).
Proof.
  apply (X15_cleanup_transparent Examples.cache_k (60 * Millisecond)).
  unfold Millisecond. lia.
Defined.

Section ComputeMore.

Context {Env : Type}.
Implicit Types (x : Exec Env) (fn : @Retry.OpWithResult Env any).

(** X16.  [GetOrSet] caches a success: after a miss on which [fn] returned
    a value, every [GetOrSet] for the key made no later than the default
    TTL after the clock reading of the store returns that value without
    invoking its function and without touching the cache. *)
Theorem X16_GetOrSet_caches_success (c : Cache) (key : string) fn x (v : any) :
  snd (fst (Get c key (clock (world x)))) = false ->
  fst (fn (world x)) = (v, None) ->
  forall fn' x2,
    clock (world x2) <= clock (snd (fn (world x))) + defaultTTL c ->
    fst (fst (GetOrSet c key fn x)) = (v, None) /\
    GetOrSet (snd (fst (GetOrSet c key fn x))) key fn' x2
      = ((v, None), snd (fst (GetOrSet c key fn x)), x2).
Proof.
  intros Hmiss Hres fn' x2 Hfresh.
  assert (Hrun : GetOrSet c key fn x
                 = ((v, None),
                    Set_ (snd (Get c key (clock (world x)))) key v
                      (clock (snd (fn (world x)))),
                    {| world := snd (fn (world x));
                       trace := trace x ++ [EvCall None] |})).
  { unfold GetOrSet. destruct (Get c key (clock (world x))) as [[v0 ok] c1].
    cbn in Hmiss. subst ok. rewrite invokeWithResult_eq, Hres. reflexivity. }
  rewrite Hrun. cbn [fst snd]. split; [reflexivity|].
  set (c1 := snd (Get c key (clock (world x)))).
  assert (Httl : defaultTTL c1 = defaultTTL c).
  { unfold c1, Get. destruct (entries c !! key) as [e|]; [|reflexivity].
    destruct (IsExpired e (clock (world x))); reflexivity. }
  unfold GetOrSet.
  rewrite (Get_fresh _ key (clock (world x2))
             {| Value := v; Expiration := clock (snd (fn (world x))) + defaultTTL c1 |}).
  - reflexivity.
  - unfold Set_, SetWithTTL. cbn. apply lookup_insert_eq.
  - cbn. rewrite Httl. exact Hfresh.
Qed.

(** A failed type assertion, for a concrete type. *)
Lemma type_assert_mismatch (v : any) (T : GoType) :
  is_interface T = false -> dynamic_type v <> Some T ->
  type_assert v T = (zero_value T, false).
Proof.
  intros Hc Hty. unfold type_assert. destruct (dynamic_type v) as [D|]; [|reflexivity].
  rewrite Hc. destruct (GoType_eqb D T) eqn:E; [|reflexivity].
  exfalso. apply Hty. destruct D, T; try discriminate; reflexivity.
Qed.

(** X18.  [GetOrSetTyped] with the wrong type replaces the entry: when the
    key holds a fresh value whose dynamic type is not the concrete type
    asked for, the function is invoked as on a miss, and on its success the
    value it returns is stored in place of the one that was there. *)
Theorem X18_GetOrSetTyped_replaces (T : GoType) (c : Cache) (key : string)
    fn x (e : CacheEntry) (v : any) :
  is_interface T = false ->
  entries c !! key = Some e ->
  clock (world x) <= Expiration e ->
  dynamic_type (Value e) <> Some T ->
  fst (fn (world x)) = (v, None) ->
  GetOrSetTyped T c key fn x
    = ((v, None), Set_ c key v (clock (snd (fn (world x)))),
       {| world := snd (fn (world x)); trace := trace x ++ [EvCall None] |}) /\
  entries (Set_ c key v (clock (snd (fn (world x))))) !! key
    = Some {| Value := v;
              Expiration := clock (snd (fn (world x))) + defaultTTL c |}.
Proof.
  intros Hc He Hfresh Hty Hres. split.
  - unfold GetOrSetTyped, GetTyped.
    rewrite (Get_fresh c key _ e He Hfresh), (type_assert_mismatch _ _ Hc Hty).
    rewrite invokeWithResult_eq, Hres. reflexivity.
  - unfold Set_, SetWithTTL. cbn. apply lookup_insert_eq.
Qed.

End ComputeMore.

(** X17.  A typed round trip: a value stored under a key is found by
    [GetTyped] at its own dynamic type, and at the interface type [any],
    until its TTL has passed; a stored nil is found by [Get] but by
    [GetTyped] at no type at all. *)
Theorem X17_GetTyped_roundtrip (c : Cache) (key : string) (v : any)
    (ttl : Duration) (now t : Time) (T : GoType) :
  t <= now + ttl ->
  let c' := SetWithTTL c key v ttl now in
  (dynamic_type v = Some T -> GetTyped T c' key t = ((v, true), c')) /\
  (v <> VNil -> GetTyped TAny c' key t = ((v, true), c')) /\
  (v = VNil ->
     Get c' key t = ((VNil, true), c') /\
     GetTyped T c' key t = ((zero_value T, false), c')).
Proof.
  intros Ht c'.
  assert (Hget : Get c' key t = ((v, true), c')).
  { apply (Get_fresh c' key t {| Value := v; Expiration := now + ttl |}).
    - unfold c', SetWithTTL. cbn. apply lookup_insert_eq.
    - exact Ht. }
  unfold GetTyped. rewrite Hget. split; [|split].
  - intros Hty. unfold type_assert. rewrite Hty.
    destruct T; try reflexivity; destruct v; discriminate.
  - intros Hv. destruct v; try reflexivity. congruence.
  - intros ->. split; [reflexivity|]. reflexivity.
Qed.

Lemma X17_GetTyped_roundtrip_witness :
  GetTyped TInt Examples.cache_k "k" (50 * Millisecond)
  = ((VInt 7, true), Examples.cache_k).
Proof.
  destruct (X17_GetTyped_roundtrip Examples.cache0 "k" (VInt 7) (50 * Millisecond) 0
              (50 * Millisecond) TInt) as [Hsame _]; [unfold Millisecond; lia|].
  apply Hsame. reflexivity.
Defined.

Lemma X16_GetOrSet_caches_success_witness :
  GetOrSet (snd (fst (GetOrSet Examples.cache0 "n"
                        MoreExamples.compute_one (Examples.at_time 0))))
    "n" Examples.compute_fails (Examples.at_time (100 * Millisecond))
  = ((VInt 1, None),
     snd (fst (GetOrSet Examples.cache0 "n"
                 MoreExamples.compute_one (Examples.at_time 0))),
     Examples.at_time (100 * Millisecond)).
Proof.
  apply (X16_GetOrSet_caches_success Examples.cache0 "n"
           MoreExamples.compute_one (Examples.at_time 0) (VInt 1));
    [reflexivity | reflexivity | vm_compute; discriminate].
Defined.

Lemma X18_GetOrSetTyped_replaces_witness :
  GetOrSetTyped TString Examples.cache_k "k" MoreExamples.compute_seven
    (Examples.at_time 0)
  = ((VString "seven", None), Set_ Examples.cache_k "k" (VString "seven") 0,
     {| world := world (Examples.at_time 0); trace := [EvCall None] |}).
Proof.
  destruct (X18_GetOrSetTyped_replaces TString Examples.cache_k "k"
              MoreExamples.compute_seven (Examples.at_time 0)
              {| Value := VInt 7; Expiration := 50 * Millisecond |} (VString "seven"))
    as [Hrun _];
    [reflexivity | reflexivity | vm_compute; discriminate | discriminate | reflexivity |].
  exact Hrun.
Defined.

(** ** Joined errors *)

Lemma existsb_orb {A : Type} (p q : A -> bool) (l : list A) :
  existsb (fun a => p a || q a) l = existsb p l || existsb q l.
Proof.
  induction l as [|a l IH]; [reflexivity|]. cbn [existsb]. rewrite IH.
  destruct (p a), (q a), (existsb p l), (existsb q l); reflexivity.
Qed.

Lemma existsb_pointwise {A : Type} (p q : A -> bool) (l : list A) :
  (forall a, p a = q a) -> existsb p l = existsb q l.
Proof.
  intros H. induction l as [|a l IH]; [reflexivity|]. cbn [existsb]. rewrite H, IH. reflexivity.
Qed.

Lemma IsRetryable_walk (e : error) :
  IsRetryable (Some e) = As_NetworkError e || Is e ErrRateLimited || Is e ErrTimeout.
Proof.
  unfold IsRetryable.
  destruct (As_NetworkError e), (Is e ErrRateLimited), (Is e ErrTimeout),
    (As_SOAPFault e), (As_APIError e); reflexivity.
Qed.

(** X19.  Errors joined together are retried exactly when one of them is:
    [IsRetryable] of a join is the disjunction of [IsRetryable] over its
    members, so an empty join is not retryable and one retryable member is
    enough, whatever the others are. *)
Theorem X19_IsRetryable_Joined (errs : list error) :
  IsRetryable (Some (Joined errs)) = existsb (fun e => IsRetryable (Some e)) errs.
Proof.
  rewrite IsRetryable_walk.
  rewrite (existsb_pointwise _
             (fun e => As_NetworkError e || Is e ErrRateLimited || Is e ErrTimeout))
    by (intros e; apply IsRetryable_walk).
  rewrite !existsb_orb. reflexivity.
Qed.

(** ** The client and its options *)

Import Tradera Options Auth.

(** X20.  [NewClient] fails exactly on a configuration with [AppID <= 0]
    (first) or an empty [AppKey]; otherwise it builds a limiter exactly for
    a positive [RateLimit] (full, with burst equal to the rate), a retryer
    exactly when [RetryEnabled] (at least one retry, delays capped at 30s,
    giving up exactly on the errors [IsRetryable] rejects), and a cache
    exactly for a positive [CacheTTL] (empty, with that default TTL). *)
Theorem X20_NewClient (cfg : Config) (now : Time) :
  (Tradera.AppID cfg <= 0 -> NewClient cfg now = inr ErrInvalidAppID) /\
  (0 < Tradera.AppID cfg -> Tradera.AppKey cfg = "" ->
     NewClient cfg now = inr ErrInvalidAppKey) /\
  (0 < Tradera.AppID cfg -> Tradera.AppKey cfg <> "" ->
     exists c, NewClient cfg now = inl c /\ Tradera.config c = cfg /\
       ((0 < RateLimit cfg)%Q ->
          exists rl, rateLimiter c = Some rl /\ bucket_ok rl /\
                     tokens rl = RateLimit cfg /\ bucketSize rl = RateLimit cfg /\
                     rate rl = RateLimit cfg /\ lastUpdate rl = now) /\
       ((RateLimit cfg <= 0)%Q -> rateLimiter c = None) /\
       (RetryEnabled cfg = true ->
          exists r, retryer c = Some r /\
                    1 <= Retry.MaxRetries (Retry.config r) /\
                    MaxDelay (Retry.config r) = 30 * Second /\
                    forall e, gives_up r e = negb (IsRetryable (Some e))) /\
       (RetryEnabled cfg = false -> retryer c = None) /\
       (0 < CacheTTL cfg ->
          exists ca, cache c = Some ca /\ defaultTTL ca = CacheTTL cfg /\ Size ca = O) /\
       (CacheTTL cfg <= 0 -> cache c = None)).
Proof.
  unfold NewClient, Validate. split; [|split].
  - intros H. apply Z.leb_le in H. rewrite H. reflexivity.
  - intros H Hk. destruct (Tradera.AppID cfg <=? 0) eqn:E; [apply Z.leb_le in E; lia|].
    rewrite Hk. reflexivity.
  - intros H Hk. destruct (Tradera.AppID cfg <=? 0) eqn:E; [apply Z.leb_le in E; lia|].
    destruct (String.eqb (Tradera.AppKey cfg) "") eqn:Ek; [apply String.eqb_eq in Ek; congruence|].
    eexists. split; [reflexivity|]. cbn [Tradera.config rateLimiter retryer cache].
    split; [reflexivity|]. split; [|split; [|split; [|split; [|split]]]].
    + intros Hr. apply Qlt_bool_iff in Hr as Hb. rewrite Hb.
      eexists. split; [reflexivity|]. unfold NewRateLimiter, NewRateLimiterWithBurst, bucket_ok.
      cbn. repeat split; lra.
    + intros Hr. apply Qlt_bool_false in Hr. rewrite Hr. reflexivity.
    + intros ->. eexists. split; [reflexivity|].
      set (rc := {| Retry.MaxRetries := _ |}).
      destruct (NewRetryer_normal rc) as (Hm & _ & _ & _ & _ & _ & Hs).
      split; [lia|]. split.
      * rewrite NewRetryer_config. reflexivity.
      * intros e. unfold gives_up. rewrite Hs. reflexivity.
    + intros ->. reflexivity.
    + intros Ht. apply Z.ltb_lt in Ht. rewrite Ht. eexists. split; [reflexivity|].
      split; [reflexivity|]. apply map_size_empty.
    + intros Ht. destruct (0 <? CacheTTL cfg) eqn:Ec; [apply Z.ltb_lt in Ec; lia | reflexivity].
Qed.

Lemma X20_NewClient_witness :
  NewClient (DefaultConfig 0 "key") 0 = inr ErrInvalidAppID /\
  NewClient (DefaultConfig 1 "") 0 = inr ErrInvalidAppKey /\
  exists c, NewClient Examples.client_cfg 0 = inl c /\ Tradera.config c = Examples.client_cfg.
Proof.
  split; [|split].
  - apply (X20_NewClient (DefaultConfig 0 "key") 0). cbn. lia.
  - apply (X20_NewClient (DefaultConfig 1 "") 0); [cbn; lia | reflexivity].
  - destruct (X20_NewClient Examples.client_cfg 0) as (_ & _ & H).
    destruct H as (c & Hc & Hcfg & _); [cbn; lia | discriminate |]. eauto.
Defined.

(** X21.  The options of a configuration touch their own fields only: none
    of them changes whether the configuration is valid; user credentials
    count only with a positive user id and a non-empty token; and
    [WithRetry] with a count of zero or less does not disable retries: the
    client built from it retries three times. *)
Theorem X21_options (cfg : Config) :
  (forall u tok, Validate (WithUserAuth cfg u tok) = Validate cfg) /\
  (forall rps, Validate (WithRateLimit cfg rps) = Validate cfg) /\
  (forall m d, Validate (WithRetry cfg m d) = Validate cfg) /\
  (forall ttl, Validate (WithCache cfg ttl) = Validate cfg) /\
  (forall to, Validate (WithTimeout cfg to) = Validate cfg) /\
  (forall u tok, HasUserAuth (WithUserAuth cfg u tok) = true <-> 0 < u /\ tok <> "") /\
  (forall m d now c,
     m <= 0 -> NewClient (WithRetry cfg m d) now = inl c ->
     exists r, retryer c = Some r /\ Retry.MaxRetries (Retry.config r) = 3).
Proof.
  repeat split; try reflexivity.
  - unfold HasUserAuth in H. cbn in H. apply andb_true_iff in H as [H _].
    apply Z.ltb_lt. exact H.
  - unfold HasUserAuth in H. cbn in H. apply andb_true_iff in H as [_ H].
    apply negb_true_iff in H. apply String.eqb_neq in H. exact H.
  - intros [Hu Ht]. unfold HasUserAuth. cbn. apply andb_true_iff. split.
    + apply Z.ltb_lt. exact Hu.
    + apply negb_true_iff. apply String.eqb_neq. exact Ht.
  - intros m d now c Hm Hnew. unfold NewClient in Hnew.
    change (Validate (WithRetry cfg m d)) with (Validate cfg) in Hnew.
    destruct (Validate cfg); [discriminate|]. injection Hnew as <-.
    cbn [retryer WithRetry RetryEnabled Tradera.MaxRetries RetryBaseDelay].
    eexists. split; [reflexivity|].
    rewrite NewRetryer_config. cbn [Retry.MaxRetries].
    apply Z.leb_le in Hm. rewrite Hm. reflexivity.
Qed.

Lemma X21_options_witness :
  exists c r,
    NewClient (WithRetry (DefaultConfig 1 "key") 0 0) 0 = inl c /\
    retryer c = Some r /\ Retry.MaxRetries (Retry.config r) = 3.
Proof.
  destruct (X21_options (DefaultConfig 1 "key")) as (_ & _ & _ & _ & _ & _ & H).
  destruct (NewClient (WithRetry (DefaultConfig 1 "key") 0 0) 0) as [c|err] eqn:E;
    [|discriminate E].
  destruct (H 0 0 0 c) as (r & Hr & Hm); [lia | exact E |].
  exists c, r. repeat split; assumption.
Defined.

(** ** The dispatchers *)

Section DispatchMore.

Context {Env : Type}.
Variable o : Oracle.
Implicit Types (x : Exec Env) (ctx : Context) (c : Client).

(** X22.  The two dispatchers are one: on a remote call that returns a
    value, [executeWithMiddlewareResult] ends with the error, the client,
    the world and the trace that [executeWithMiddleware] ends with on the
    same call with its value dropped. *)
Theorem X22_dispatchers_agree {T : Type} (zero : T) c ctx
    (fn : @OpWithResult Env T) (fuel : nat) x :
  option_map
    (fun out : (T * option error) * Client * Exec Env =>
       (snd (fst (fst out)), snd (fst out), snd out))
    (executeWithMiddlewareResult o zero c ctx fn fuel x)
  = executeWithMiddleware o c ctx (forget_result fn) fuel x.
Proof.
  unfold executeWithMiddlewareResult, executeWithMiddleware.
  destruct (applyRateLimit o c ctx fuel x) as [[[[err|] c1] x1]|]; try reflexivity.
  destruct (retryer c1) as [r|].
  - pose proof (DoWithResult_loop_as_Do o r ctx fn
                  (Z.to_nat (Retry.MaxRetries (Retry.config r) + 1)) 0 zero None x1) as H.
    unfold DoWithResult, Do. rewrite <- H.
    destruct (DoWithResult_loop o r ctx fn _ 0 zero None x1) as [[[v e] x2]|]; reflexivity.
  - rewrite invokeWithResult_eq, invoke_eq. reflexivity.
Qed.

(** X23.  The dispatcher, for every endpoint.  Whenever the limiter step
    returns, [executeWithMiddleware] returns, and its trace is the
    limiter's events followed by calls and backoffs; an error of the
    limiter is returned as it is, with no invocation; with neither limiter
    nor retryer the operation is invoked exactly once, whatever the fuel,
    and its result returned. *)
Theorem X23_executeWithMiddleware c ctx (fn : @Op Env) (fuel : nat) x :
  (forall lim, applyRateLimit o c ctx fuel x = Some lim ->
     exists res c' x' tl tr,
       executeWithMiddleware o c ctx fn fuel x = Some (res, c', x') /\
       trace x' = trace x ++ tl ++ tr /\
       Forall (fun e => is_limiter_event e = true) tl /\
       Forall (fun e => is_retry_event e = true) tr /\
       (forall err, fst (fst lim) = Some err ->
          res = Some err /\ tr = [] /\ calls (trace x') = calls (trace x)))
  /\
  (rateLimiter c = None -> retryer c = None ->
     executeWithMiddleware o c ctx fn fuel x
       = Some (fst (fn (world x)), c,
               {| world := snd (fn (world x));
                  trace := trace x ++ [EvCall (fst (fn (world x)))] |})).
Proof.
  split.
  - intros [[oerr c1] x1] Hlim. unfold executeWithMiddleware. rewrite Hlim.
    destruct (applyRateLimit_trace o _ _ _ _ _ _ _ Hlim) as (tl & Htl & Hall & _).
    destruct oerr as [err|].
    + exists (Some err), c1, x1, tl, []. rewrite app_nil_r. cbn [fst].
      split; [reflexivity|]. split; [exact Htl|]. split; [exact Hall|].
      split; [constructor|]. intros err' [= <-].
      split; [reflexivity|]. split; [reflexivity|].
      rewrite Htl, calls_app, (limiter_events_no_call tl Hall). lia.
    + destruct (retryer c1) as [r|].
      * destruct (Do_returns o r ctx fn x1) as (res & x2 & tr & Hrun & Htr & Hev).
        rewrite Hrun. exists res, c1, x2, tl, tr. cbn [fst].
        split; [reflexivity|]. split; [rewrite Htr, Htl, <- app_assoc; reflexivity|].
        split; [exact Hall|]. split; [exact Hev|]. intros err; discriminate.
      * rewrite invoke_eq. eexists _, c1, _, tl, [EvCall _]. cbn [fst trace].
        split; [reflexivity|]. split; [rewrite Htl, <- app_assoc; reflexivity|].
        split; [exact Hall|]. split; [repeat constructor|]. intros err; discriminate.
  - intros Hrl Hr. unfold executeWithMiddleware, applyRateLimit. rewrite Hrl, Hr.
    rewrite invoke_eq. reflexivity.
Qed.

Import Auth.

(** X24.  The credentials gate of the authenticated endpoints comes before
    everything else: without a positive user id and a non-empty token the
    endpoint returns [ErrAuthRequired] and nothing runs (no token is taken
    from the limiter, the operation is not invoked, the clock is not read);
    with them it is the dispatcher.  The gate is open exactly when the SOAP
    headers carry the authorization header. *)
Theorem X24_auth_gate c ctx (remote : @Op Env) (fuel : nat) x :
  (Options.HasUserAuth (Tradera.config c) = false ->
     SetSellerOrderAsShipped o c ctx remote fuel x = Some (Some ErrAuthRequired, c, x)) /\
  (Options.HasUserAuth (Tradera.config c) = true ->
     SetSellerOrderAsShipped o c ctx remote fuel x
       = executeWithMiddleware o c ctx remote fuel x) /\
  (RequireUserAuth (Tradera.config c) = None <->
     Authorization (NewSOAPHeaders (Tradera.config c))
       = Some {| UserID := Tradera.UserID (Tradera.config c);
                 Token := Tradera.Token (Tradera.config c) |}) /\
  (RequireUserAuth (Tradera.config c) = None <->
     0 < Tradera.UserID (Tradera.config c) /\ Tradera.Token (Tradera.config c) <> "").
Proof.
  assert (Hauth : Options.HasUserAuth (Tradera.config c) = true <->
                  0 < Tradera.UserID (Tradera.config c) /\
                  Tradera.Token (Tradera.config c) <> "").
  { unfold Options.HasUserAuth.
    rewrite andb_true_iff, negb_true_iff, Z.ltb_lt, String.eqb_neq. reflexivity. }
  unfold SetSellerOrderAsShipped, RequireUserAuth, NewSOAPHeaders. cbn [Authorization].
  split; [intros ->; reflexivity|]. split; [intros ->; reflexivity|].
  destruct (Options.HasUserAuth (Tradera.config c)); cbn [negb].
  - split; split; try reflexivity; intros _; apply Hauth; reflexivity.
  - split; split; try discriminate.
    intros H. apply Hauth in H. discriminate H.
Qed.

End DispatchMore.

Lemma X23_executeWithMiddleware_witness :
  executeWithMiddleware Examples.oracle0 MoreExamples.client_plain
    Examples.cancelled Examples.times_out O Examples.start
  = Some (Some ErrTimeout, MoreExamples.client_plain,
          {| world := world Examples.start; trace := [EvCall (Some ErrTimeout)] |}).
Proof.
  apply (X23_executeWithMiddleware Examples.oracle0 MoreExamples.client_plain
           Examples.cancelled Examples.times_out O Examples.start); reflexivity.
Defined.

Lemma X24_auth_gate_witness :
  Auth.SetSellerOrderAsShipped Examples.oracle0 Examples.client0 Background
    Examples.succeeds 1 Examples.start
  = Some (Some ErrAuthRequired, Examples.client0, Examples.start).
Proof.
  apply (X24_auth_gate Examples.oracle0 Examples.client0 Background Examples.succeeds 1
           Examples.start). reflexivity.
Defined.

Section CategoriesMore.

Context {Env Response : Type}.
Variable o : Oracle.
Variable nilResponse : Response.
Variable categoriesOf : Response -> list Category.
Implicit Types (x : Exec Env) (ctx : Context) (c : Client).

(** X25.  [GetCategories] caches its success: when a call on a client with
    a cache misses and returns categories, every later call made on the
    client it leaves, no later than the default TTL after the clock reading
    at the end of the first, returns the same categories and runs nothing:
    no limiter, no retryer, no remote call. *)
Theorem X25_GetCategories_cached c (ca : Cache) ctx
    (remote : @OpWithResult Env Response) (fuel : nat) x
    (cats : list Category) c' x' :
  cache c = Some ca ->
  snd (fst (Get ca "categories" (clock (world x)))) = false ->
  GetCategories o nilResponse categoriesOf c ctx remote fuel x
    = Some (Ret (cats, None), c', x') ->
  forall ctx2 (remote2 : @OpWithResult Env Response) (fuel2 : nat) x2,
    clock (world x2) <= clock (world x') + defaultTTL ca ->
    GetCategories o nilResponse categoriesOf c' ctx2 remote2 fuel2 x2
      = Some (Ret (cats, None), c', x2).
Proof.
  intros Hca Hmiss Hrun ctx2 remote2 fuel2 x2 Hfresh.
  unfold GetCategories, cachedCategories in Hrun. rewrite Hca in Hrun.
  assert (Httl : defaultTTL (snd (Get ca "categories" (clock (world x)))) = defaultTTL ca).
  { unfold Get. destruct (entries ca !! "categories") as [e|]; [|reflexivity].
    destruct (IsExpired e (clock (world x))); reflexivity. }
  destruct (Get ca "categories" (clock (world x))) as [[v ok] ca1].
  cbn [fst snd] in Hmiss, Httl. subst ok.
  set (c0 := with_cache c ca1) in Hrun.
  destruct (executeWithMiddlewareResult o nilResponse c0 ctx remote fuel x)
    as [[[[result [err|]] c2] x2']|] eqn:Hexec; try discriminate Hrun.
  assert (Hc2 : cache c2 = Some ca1).
  { unfold executeWithMiddlewareResult in Hexec.
    destruct (applyRateLimit o c0 ctx fuel x) as [[[[e|] c1] x1]|] eqn:Hlim;
      try discriminate Hexec.
    destruct (applyRateLimit_trace o _ _ _ _ _ _ _ Hlim) as (_ & _ & _ & _ & _ & Hcache).
    destruct (retryer c1).
    - destruct (DoWithResult o nilResponse r ctx remote x1) as [[res x3]|];
        [|discriminate Hexec].
      injection Hexec as _ <- _. rewrite Hcache. reflexivity.
    - destruct (invokeWithResult remote x1). injection Hexec as _ <- _.
      rewrite Hcache. reflexivity. }
  rewrite Hc2 in Hrun. injection Hrun as <- <- <-.
  unfold GetCategories, cachedCategories. cbn [cache with_cache].
  rewrite (Get_fresh _ "categories" (clock (world x2))
             {| Value := VCategories (categoriesOf result);
                Expiration := clock (world x2') + defaultTTL ca1 |}).
  - cbn [Value]. unfold with_cache. cbn. reflexivity.
  - unfold Set_, SetWithTTL. cbn. apply lookup_insert_eq.
  - cbn. rewrite Httl. exact Hfresh.
Qed.

End CategoriesMore.

Lemma X25_GetCategories_cached_witness :
  GetCategories Examples.oracle0 [] (fun r => r) MoreExamples.client_cache_only_filled
    Examples.cancelled Examples.remote_ok O (Examples.at_time (30 * Second))
  = Some (Ret (Examples.cats, None), MoreExamples.client_cache_only_filled,
          Examples.at_time (30 * Second)).
Proof.
  apply (X25_GetCategories_cached Examples.oracle0 [] (fun r => r)
           MoreExamples.client_cache_only (NewCache (60 * Second)) Background
           Examples.remote_ok O Examples.start
           Examples.cats MoreExamples.client_cache_only_filled
           {| world := world Examples.start; trace := [EvCall None] |});
    [reflexivity | reflexivity | reflexivity | vm_compute; discriminate].
Defined.

